(** * dll: the dynamic 4D batch-normalization layer

    A shallow embedding of [dyn_batch_normalization_4d_layer]
    (include/dll/neural/dyn_batch_normalization_layer_4d.inl) and the
    properties of its forward, backward and gradient passes.

    The layer is a template over the element type [desc::weight]; the
    embedding is generic over a [Weight] interface in the same way.  Two
    instances are given: exact real arithmetic, in which the equalities
    are stated and proved, and IEEE binary64, in which the definitions
    run.  Tensors are [etl::dyn_matrix] values: their dimensions and a
    row-major buffer.  Accesses that the C++ code leaves undefined (an
    index outside a dimension, an elementwise operation on operands of
    different sizes, an integer division by zero) make the embedded
    function return [None]. *)

From Stdlib Require Import ZArith Floats Reals Lra Lia.
From stdpp Require Import ssreflect base tactics option list.

Set Default Proof Using "Type".
Set Warnings "-rewrite-rw,-deprecated-since-9.3".


(** ** The element type *)

(** What the layer needs from [desc::weight]: the arithmetic of the etl
    expressions, [etl::sqrt], and the conversion of a [size_t] or of an
    integer literal. *)
Class Weight (A : Type) := {
  wzero : A;
  wone : A;
  wadd : A → A → A;
  wsub : A → A → A;
  wmul : A → A → A;
  wdiv : A → A → A;
  wsqrt : A → A;
  of_size : Z → A
}.

(** Exact arithmetic. *)
#[export] Instance Weight_R : Weight R := {|
  wzero := 0%R;
  wone := 1%R;
  wadd := Rplus;
  wsub := Rminus;
  wmul := Rmult;
  wdiv := Rdiv;
  wsqrt := sqrt;
  of_size := IZR
|}.

(** Rounding of an integer to the nearest binary64 value. *)
Definition Z2double (z : Z) : float :=
  SF2Prim (binary_normalize prec emax z 0 false).

(** IEEE binary64 ([weight = double]). *)
#[export] Instance Weight_double : Weight float := {|
  wzero := 0%float;
  wone := 1%float;
  wadd := PrimFloat.add;
  wsub := PrimFloat.sub;
  wmul := PrimFloat.mul;
  wdiv := PrimFloat.div;
  wsqrt := PrimFloat.sqrt;
  of_size := Z2double
|}.

(** ** [size_t] arithmetic *)

Definition size_t_modulus : Z := 2 ^ 64.

Definition size_wrap (z : Z) : Z := z mod size_t_modulus.

Definition size_mul (a b : Z) : Z := size_wrap (a * b).

Definition size_sub (a b : Z) : Z := size_wrap (a - b).

(** Unsigned division; a zero divisor is undefined behaviour. *)
Definition size_div (a b : Z) : option Z :=
  if decide (b = 0%Z) then None else Some (a / b)%Z.

(** ** Loops *)

(** [for (size_t i = 0; i < n; ++i) body(i)] over a state that the body
    may fail to produce. *)
Fixpoint for_loop {St : Type} (n : nat) (body : nat → St → option St) (s : St)
  : option St :=
  match n with
  | O => Some s
  | S m => for_loop m body s ≫= body m
  end.

(** ** Tensors *)

(** [etl::dyn_matrix<weight, 4>]: four dimensions and the row-major
    buffer.  A default-constructed matrix has no storage. *)
Record tensor4 (A : Type) := Tensor4 {
  dim0 : nat;
  dim1 : nat;
  dim2 : nat;
  dim3 : nat;
  memory : list A
}.
Arguments Tensor4 {A} _ _ _ _ _.
Arguments dim0 {A} _.
Arguments dim1 {A} _.
Arguments dim2 {A} _.
Arguments dim3 {A} _.
Arguments memory {A} _.

Definition dims {A} (t : tensor4 A) : nat * nat * nat * nat :=
  (dim0 t, dim1 t, dim2 t, dim3 t).

(** The class invariant of [dyn_matrix]: the buffer holds one element
    per index. *)
Definition wf_tensor {A} (t : tensor4 A) : Prop :=
  length (memory t) = dim0 t * dim1 t * dim2 t * dim3 t.

Definition null_tensor {A} : tensor4 A := Tensor4 0 0 0 0 [].

(** Number of elements of the sub-matrix [t(b)(k)]. *)
Definition slice_len {A} (t : tensor4 A) : nat := dim2 t * dim3 t.

(** Where [t(b)(k)] starts in the buffer. *)
Definition slice_off {A} (t : tensor4 A) (b k : nat) : nat :=
  (b * dim1 t + k) * slice_len t.

Definition slice {A} (t : tensor4 A) (b k : nat) : list A :=
  take (slice_len t) (drop (slice_off t b k) (memory t)).

(** Reading the view [t(b)(k)]. *)
Definition sub4 {A} (t : tensor4 A) (b k : nat) : option (list A) :=
  if decide (b < dim0 t ∧ k < dim1 t) then Some (slice t b k) else None.

(** [t(b)(k) = vs]: elementwise assignment of a [dim2 x dim3] expression
    to the view. *)
Definition sub4_assign {A} (t : tensor4 A) (b k : nat) (vs : list A)
  : option (tensor4 A) :=
  if decide (b < dim0 t ∧ k < dim1 t ∧ length vs = slice_len t) then
    Some (Tensor4 (dim0 t) (dim1 t) (dim2 t) (dim3 t)
            (take (slice_off t b k) (memory t) ++ vs ++
             drop (slice_off t b k + slice_len t) (memory t)))
  else None.

(** Elementwise binary expression on two operands, which etl requires to
    have the same size. *)
Definition zip_same {A} (f : A → A → A) (xs ys : list A) : option (list A) :=
  if decide (length xs = length ys) then Some (zip_with f xs ys) else None.

(** Assignment of an expression to an [etl::dyn_matrix<weight, 1>]: a
    matrix without storage takes the size of the expression, any other
    must already have it. *)
Definition vec_assign {A} (dst src : list A) : option (list A) :=
  if decide (dst = [] ∨ length dst = length src) then Some src else None.

Section Embedding.
Context {A : Type} {weight : Weight A}.

(** [static constexpr weight e = 1e-8]. *)
Definition e : A := wdiv wone (of_size 100000000).

(** Default member initializer [weight momentum = 0.9]. *)
Definition default_momentum : A := wdiv (of_size 9) (of_size 10).

(** [etl::sum] of an expression: its elements added up from zero. *)
Definition sum (xs : list A) : A := foldl wadd wzero xs.

(** Modelled from the spec: the constructor [etl::dyn_vector<weight>(n)],
    which belongs to etl and is not in the source of the layer.  The spec
    has the vectors it builds "at default (zero)". *)
Definition dyn_vector (n : nat) : list A := replicate n wzero.

(** Assignment of a scalar to a vector: every element is set. *)
Definition vec_fill (v : list A) (x : A) : list A := replicate (length v) x.

(** Product of a scalar and a vector expression. *)
Definition vec_scale (c : A) (v : list A) : list A := map (wmul c) v.

(** Storage for a tensor of the given dimensions. *)
Definition alloc4 (d : nat * nat * nat * nat) : tensor4 A :=
  let '(d0, d1, d2, d3) := d in
  Tensor4 d0 d1 d2 d3 (replicate (d0 * d1 * d2 * d3) wzero).

(** Modelled from the spec: [inherit_if_null], a member of etl's
    [dyn_matrix] that is not in the source of the layer.  The spec gives it
    "inherit semantics: allocate if absent/mismatched, else reuse": a matrix
    without storage, or whose dimensions differ from those of the
    expression, gets fresh storage of the dimensions of the expression; any
    other is kept as it is. *)
Definition inherit_if_null (t src : tensor4 A) : tensor4 A :=
  if decide (memory t ≠ [] ∧ dims t = dims src) then t else alloc4 (dims src).

(** [etl::force_temporary_dim_only]: a temporary of the dimensions of the
    expression, whose elements are not copied. *)
Definition force_temporary_dim_only (t : tensor4 A) : tensor4 A :=
  alloc4 (dims t).

(** Modelled from the spec: [etl::bias_batch_sum_4d], a reduction of etl
    that is not in the source of the layer; the spec has it sum "over every
    axis except the channel axis".  For each channel [k], the views
    [t(b)(k)] are summed over the batch. *)
Definition bias_batch_sum_4d (t : tensor4 A) : list A :=
  map (λ k, foldl (λ acc b, wadd acc (sum (slice t b k))) wzero (seq 0 (dim0 t)))
      (seq 0 (dim1 t)).

(** Modelled from the spec: [etl::bias_batch_mean_4d], likewise etl's; the
    "mean over (b, spatial)", that is, the same sum divided by the number of
    elements that contribute to a channel. *)
Definition bias_batch_mean_4d (t : tensor4 A) : list A :=
  map (λ s, wdiv s (of_size (Z.of_nat (dim0 t * dim2 t * dim3 t))))
      (bias_batch_sum_4d t).

(** The elementwise product [a >> b] of two tensors. *)
Definition tensor_mul (a b : tensor4 A) : option (tensor4 A) :=
  if decide (dims a = dims b) then
    Some (Tensor4 (dim0 a) (dim1 a) (dim2 a) (dim3 a)
            (zip_with wmul (memory a) (memory b)))
  else None.

(** *** The layer *)

(** The fields of the struct.  Its members [w] and [b] are references to
    [gamma] and [beta] and need no field of their own. *)
Record layer := Layer {
  gamma : list A;
  beta : list A;
  mean : list A;
  var : list A;
  last_mean : list A;
  last_var : list A;
  inv_var : list A;
  input_pre : tensor4 A;
  momentum : A;
  bak_gamma : option (list A);
  bak_beta : option (list A);
  Kernels : nat;
  W : nat;
  H : nat
}.

(** The layer as its default constructor leaves it. *)
Definition new_layer : layer :=
  Layer [] [] [] [] [] [] [] null_tensor default_momentum None None 0 0 0.

Definition init_layer (Kernels' W' H' : nat) (l : layer) : layer :=
  let gamma1 := dyn_vector Kernels' in
  let beta1 := dyn_vector Kernels' in
  let mean1 := dyn_vector Kernels' in
  let var1 := dyn_vector Kernels' in
  let last_mean1 := dyn_vector Kernels' in
  let last_var1 := dyn_vector Kernels' in
  let inv_var1 := dyn_vector Kernels' in
  let gamma2 := vec_fill gamma1 wone in
  let beta2 := vec_fill beta1 wzero in
  Layer gamma2 beta2 mean1 var1 last_mean1 last_var1 inv_var1
        (input_pre l) (momentum l) (bak_gamma l) (bak_beta l)
        Kernels' W' H'.

Definition parameters (l : layer) : Z :=
  size_mul 4 (Z.of_nat (Kernels l)).

Definition input_size (l : layer) : Z :=
  size_mul (size_mul (Z.of_nat (Kernels l)) (Z.of_nat (W l))) (Z.of_nat (H l)).

Definition output_size (l : layer) : Z :=
  size_mul (size_mul (Z.of_nat (Kernels l)) (Z.of_nat (W l))) (Z.of_nat (H l)).

(** [const auto S = B * W * H], the number of elements behind the
    statistics of one channel, in [size_t]. *)
Definition batch_S (l : layer) (B : nat) : Z :=
  size_mul (size_mul (Z.of_nat B) (Z.of_nat (W l))) (Z.of_nat (H l)).

(** *** The inference pass *)

(** The body of the loops of the inference pass. *)
Definition test_body (l : layer) (inp : tensor4 A) (inv_var' : list A)
           (b k : nat) (o : tensor4 A) : option (tensor4 A) :=
  x ← sub4 inp b k;
  g ← gamma l !! k;
  m ← mean l !! k;
  iv ← inv_var' !! k;
  bt ← beta l !! k;
  sub4_assign o b k (map (λ v, wadd (wmul g (wmul (wsub v m) iv)) bt) x).

(** A [const] member function: the layer comes back as it was given. *)
Definition test_batch_activate_hidden (l : layer) (out inp : tensor4 A)
  : option (layer * tensor4 A) :=
  let B := dim0 inp in
  let inv_var' := map (λ v, wdiv wone (wsqrt (wadd v e))) (var l) in
  out1 ← for_loop B (λ b, for_loop (Kernels l) (test_body l inp inv_var' b)) out;
  Some (l, out1).

Definition batch_activate_hidden (l : layer) (out inp : tensor4 A)
  : option (layer * tensor4 A) :=
  test_batch_activate_hidden l out inp.

(** *** The training pass *)

(** The loop that accumulates the squared deviations into [last_var]. *)
Definition var_body (inp : tensor4 A) (lmean : list A) (b k : nat)
           (lv : list A) : option (list A) :=
  x ← sub4 inp b k;
  m ← lmean !! k;
  acc ← lv !! k;
  Some (<[k := wadd acc (sum (map (λ v, wmul (wsub v m) (wsub v m)) x))]> lv).

(** The loop that fills [input_pre] and [output]. *)
Definition norm_body (l : layer) (inp : tensor4 A) (lmean ivar : list A)
           (b k : nat) (st : tensor4 A * tensor4 A)
  : option (tensor4 A * tensor4 A) :=
  x ← sub4 inp b k;
  m ← lmean !! k;
  iv ← ivar !! k;
  pre1 ← sub4_assign st.1 b k (map (λ v, wmul (wsub v m) iv) x);
  p ← sub4 pre1 b k;
  g ← gamma l !! k;
  bt ← beta l !! k;
  out1 ← sub4_assign st.2 b k (map (λ v, wadd (wmul g v) bt) p);
  Some (pre1, out1).

(** Lines 143 to 169: the statistics of the batch, the cache and the
    output. *)
Definition train_normalize (l : layer) (out inp : tensor4 A)
  : option (layer * tensor4 A) :=
  let B := dim0 inp in
  let s := batch_S l B in
  last_mean1 ← vec_assign (last_mean l) (bias_batch_mean_4d inp);
  let last_var1 := vec_fill (last_var l) wzero in
  last_var2 ← for_loop B (λ b, for_loop (Kernels l) (var_body inp last_mean1 b))
                last_var1;
  let last_var3 := map (λ v, wdiv v (of_size s)) last_var2 in
  inv_var1 ← vec_assign (inv_var l)
               (map (λ v, wdiv wone (wsqrt (wadd v e))) last_var3);
  let input_pre1 := inherit_if_null (input_pre l) inp in
  st ← for_loop B (λ b, for_loop (Kernels l) (norm_body l inp last_mean1 inv_var1 b))
         (input_pre1, out);
  Some (Layer (gamma l) (beta l) (mean l) (var l) last_mean1 last_var3 inv_var1
              st.1 (momentum l) (bak_gamma l) (bak_beta l)
              (Kernels l) (W l) (H l),
        st.2).

(** Lines 171 to 173: the running statistics, with [S / (S - 1)] on the
    two [size_t] operands the code gives it. *)
Definition train_update_running (l : layer) (s : Z) : option layer :=
  mean_e ← zip_same wadd (vec_scale (momentum l) (mean l))
                         (vec_scale (wsub wone (momentum l)) (last_mean l));
  mean1 ← vec_assign (mean l) mean_e;
  q ← size_div s (size_sub s 1);
  var_e ← zip_same wadd (vec_scale (momentum l) (var l))
                        (vec_scale (wsub wone (momentum l))
                                   (vec_scale (of_size q) (last_var l)));
  var1 ← vec_assign (var l) var_e;
  Some (Layer (gamma l) (beta l) mean1 var1 (last_mean l) (last_var l)
              (inv_var l) (input_pre l) (momentum l) (bak_gamma l) (bak_beta l)
              (Kernels l) (W l) (H l)).

(** The body of the member function: the two blocks in sequence. *)
Definition train_batch_activate_hidden (l : layer) (out inp : tensor4 A)
  : option (layer * tensor4 A) :=
  r ← train_normalize l out inp;
  l1 ← train_update_running r.1 (batch_S l (dim0 inp));
  Some (l1, r.2).

(** *** The training context *)

Record sgd_context := SgdContext {
  input : tensor4 A;
  output : tensor4 A;
  errors : tensor4 A;
  w_grad : list A;
  b_grad : list A
}.

Definition new_sgd_context (batch_size : nat) (l : layer) : sgd_context :=
  let d := (batch_size, Kernels l, W l, H l) in
  SgdContext (alloc4 d) (alloc4 d) (alloc4 d)
             (dyn_vector (Kernels l)) (dyn_vector (Kernels l)).

Definition adapt_errors (l : layer) (context : sgd_context)
  : layer * sgd_context := (l, context).

(** *** The backward pass *)

Definition dxhat_body (l : layer) (context : sgd_context) (b k : nat)
           (dxhat : tensor4 A) : option (tensor4 A) :=
  er ← sub4 (errors context) b k;
  g ← gamma l !! k;
  sub4_assign dxhat b k (map (λ v, wmul v g) er).

Definition grad_body (l : layer) (s : Z) (dxhat : tensor4 A)
           (dxhat_l dxhat_xhat_l : list A) (b k : nat) (o : tensor4 A)
  : option (tensor4 A) :=
  iv ← inv_var l !! k;
  dx ← sub4 dxhat b k;
  dl ← dxhat_l !! k;
  p ← sub4 (input_pre l) b k;
  dxl ← dxhat_xhat_l !! k;
  t ← zip_same (λ d x, wsub (wsub (wmul (of_size s) d) dl) (wmul x dxl)) dx p;
  sub4_assign o b k (map (wmul (wmul (wdiv wone (of_size s)) iv)) t).

Definition backward_batch (l : layer) (out : tensor4 A) (context : sgd_context)
  : option (layer * tensor4 A) :=
  let B := dim0 (input context) in
  let s := batch_S l B in
  let dxhat0 := force_temporary_dim_only (errors context) in
  dxhat ← for_loop B (λ b, for_loop (Kernels l) (dxhat_body l context b)) dxhat0;
  let dxhat_l := bias_batch_sum_4d dxhat in
  prod ← tensor_mul dxhat (input_pre l);
  let dxhat_xhat_l := bias_batch_sum_4d prod in
  out1 ← for_loop B (λ b, for_loop (Kernels l)
                             (grad_body l s dxhat dxhat_l dxhat_xhat_l b)) out;
  Some (l, out1).

(** *** The gradients of gamma and beta *)

Definition compute_gradients (l : layer) (context : sgd_context)
  : option (layer * sgd_context) :=
  prod ← tensor_mul (input_pre l) (errors context);
  w_grad1 ← vec_assign (w_grad context) (bias_batch_sum_4d prod);
  b_grad1 ← vec_assign (b_grad context) (bias_batch_sum_4d (errors context));
  Some (l, SgdContext (input context) (output context) (errors context)
                      w_grad1 b_grad1).

End Embedding.
Arguments layer A : clear implicits.
Arguments sgd_context A : clear implicits.

(** * Specification vocabulary *)

Section Vocabulary.
Context {A : Type} {weight : Weight A}.

(** An initialized layer: the seven vectors have one element per channel,
    and the cache is a well-formed matrix. *)
Definition wf_layer (l : layer A) : Prop :=
  length (gamma l) = Kernels l ∧ length (beta l) = Kernels l ∧
  length (mean l) = Kernels l ∧ length (var l) = Kernels l ∧
  length (last_mean l) = Kernels l ∧ length (last_var l) = Kernels l ∧
  length (inv_var l) = Kernels l ∧ wf_tensor (input_pre l).

(** A tensor of shape [B, K, W, H] for the dimensions of the layer. *)
Definition fits (l : layer A) (t : tensor4 A) : Prop :=
  wf_tensor t ∧ dim1 t = Kernels l ∧ dim2 t = W l ∧ dim3 t = H l.

(** The views of [t] before [(b, k)], in the order of the loops, hold
    what [F] prescribes. *)
Definition filled_upto (t : tensor4 A) (F : nat → nat → list A) (b k : nat)
  : Prop :=
  ∀ b' k', k' < dim1 t → b' < b ∨ (b' = b ∧ k' < k) → slice t b' k' = F b' k'.

(** [f 0 + f 1 + ... + f (n - 1)], accumulated as the loops over the
    batch do. *)
Definition batch_acc (f : nat → A) (n : nat) : A :=
  foldl (λ a b, wadd a (f b)) wzero (seq 0 n).

(** The squared deviations of the view [inp(b)(k)] from the [k]-th element
    of [lmean], summed. *)
Definition sq_dev (inp : tensor4 A) (lmean : list A) (b k : nat) : A :=
  sum (map (λ v, wmul (wsub v (nth k lmean wzero)) (wsub v (nth k lmean wzero)))
           (slice inp b k)).

(** What lines 143 to 169 establish, for any element type. *)
Definition norm_post (l : layer A) (inp : tensor4 A)
           (l1 : layer A) (o1 : tensor4 A) : Prop :=
  let B := dim0 inp in
  let K := Kernels l in
  let s := batch_S l B in
  last_mean l1 = bias_batch_mean_4d inp ∧
  last_var l1 =
    map (λ k, wdiv (batch_acc (λ b, sq_dev inp (last_mean l1) b k) B) (of_size s))
        (seq 0 K) ∧
  inv_var l1 = map (λ v, wdiv wone (wsqrt (wadd v e))) (last_var l1) ∧
  (wf_tensor (input_pre l1) ∧ dims (input_pre l1) = dims inp) ∧
  (wf_tensor o1 ∧ dims o1 = dims inp) ∧
  (∀ b k, b < B → k < K →
     slice (input_pre l1) b k =
       map (λ v, wmul (wsub v (nth k (last_mean l1) wzero)) (nth k (inv_var l1) wzero))
           (slice inp b k) ∧
     slice o1 b k =
       map (λ v, wadd (wmul (nth k (gamma l) wzero) v) (nth k (beta l) wzero))
           (slice (input_pre l1) b k)).

(** What lines 171 to 173 assign, from the running statistics of [l] and
    the batch statistics of [l1]. *)
Definition running_post (l : layer A) (s : Z) (l1 : layer A) : Prop :=
  mean l1 = zip_with wadd (vec_scale (momentum l) (mean l))
                          (vec_scale (wsub wone (momentum l)) (last_mean l1)) ∧
  var l1 = zip_with wadd (vec_scale (momentum l) (var l))
             (vec_scale (wsub wone (momentum l))
                (vec_scale (of_size (s / size_sub s 1)) (last_var l1))).

(** The statement of the whole training pass. *)
Definition train_post (l : layer A) (inp : tensor4 A)
           (l1 : layer A) (o1 : tensor4 A) : Prop :=
  norm_post l inp l1 o1 ∧ running_post l (batch_S l (dim0 inp)) l1.

(** The fields of the cache: what the first block assigns and the second
    leaves alone. *)
Definition same_cache (l l1 : layer A) : Prop :=
  last_mean l1 = last_mean l ∧ last_var l1 = last_var l ∧
  inv_var l1 = inv_var l ∧ input_pre l1 = input_pre l.

(** What the training pass does not assign. *)
Definition train_frame (l l1 : layer A) : Prop :=
  gamma l1 = gamma l ∧ beta l1 = beta l ∧ momentum l1 = momentum l ∧
  bak_gamma l1 = bak_gamma l ∧ bak_beta l1 = bak_beta l ∧
  Kernels l1 = Kernels l ∧ W l1 = W l ∧ H l1 = H l.

(** The gradient with respect to the whitened activation, for the view
    [(b, k)]: [errors(b)(k) >> gamma(k)]. *)
Definition dxhat_slice (l : layer A) (context : sgd_context A) (b k : nat)
  : list A :=
  map (λ v, wmul v (nth k (gamma l) wzero)) (slice (errors context) b k).

(** [dxhat_l(k)] and [dxhat_xhat_l(k)] of the backward pass. *)
Definition dxhat_sum (l : layer A) (context : sgd_context A) (k : nat) : A :=
  batch_acc (λ b, sum (dxhat_slice l context b k)) (dim0 (errors context)).

Definition dxhat_dot_xhat (l : layer A) (context : sgd_context A) (k : nat) : A :=
  batch_acc (λ b, sum (zip_with wmul (dxhat_slice l context b k)
                                     (slice (input_pre l) b k)))
            (dim0 (errors context)).

(** What the backward pass assigns to the view [(b, k)] of its output. *)
Definition grad_slice (l : layer A) (context : sgd_context A) (b k : nat)
  : list A :=
  let s := batch_S l (dim0 (input context)) in
  map (wmul (wmul (wdiv wone (of_size s)) (nth k (inv_var l) wzero)))
      (zip_with (λ d x, wsub (wsub (wmul (of_size s) d) (dxhat_sum l context k))
                             (wmul x (dxhat_dot_xhat l context k)))
                (dxhat_slice l context b k) (slice (input_pre l) b k)).

(** The shapes the backward pass and the gradient computation rely on:
    the cache and the errors have the shape of the batch of the context. *)
Definition backward_pre (l : layer A) (context : sgd_context A) : Prop :=
  length (gamma l) = Kernels l ∧ length (inv_var l) = Kernels l ∧
  wf_tensor (input_pre l) ∧ wf_tensor (errors context) ∧
  dim1 (errors context) = Kernels l ∧
  dim0 (input context) = dim0 (errors context) ∧
  dims (input_pre l) = dims (errors context).

(** A call of the training pass within its contract: the input has the
    shape of the layer, the output buffer that of the input, and
    [B * W * H] is not 1. *)
Definition call_ok (l : layer A) (c : tensor4 A * tensor4 A) : Prop :=
  fits l c.2 ∧ wf_tensor c.1 ∧ dims c.1 = dims c.2 ∧
  batch_S l (dim0 c.2) ≠ 1%Z.

(** Successive training passes, each with its own output buffer and
    input. *)
Fixpoint train_many (l : layer A) (calls : list (tensor4 A * tensor4 A))
  : option (layer A) :=
  match calls with
  | [] => Some l
  | (out, inp) :: rest =>
      r ← train_batch_activate_hidden l out inp; train_many r.1 rest
  end.

End Vocabulary.

(** * Exact arithmetic: sums over the batch and spatial axes *)

Definition Rsum (xs : list R) : R := foldr Rplus 0%R xs.

(** [f 0 + ... + f (n - 1)]. *)
Definition Rsum_upto (n : nat) (f : nat → R) : R := Rsum (map f (seq 0 n)).

(** The sum of [f x] over the batch and spatial axes of channel [k]. *)
Definition batch_sum (x : tensor4 R) (k : nat) (f : R → R) : R :=
  Rsum_upto (dim0 x) (λ b, Rsum (map f (slice x b k))).

(** The same for a function of the elements of two tensors at the same
    index. *)
Definition batch_sum2 (x y : tensor4 R) (k : nat) (f : R → R → R) : R :=
  Rsum_upto (dim0 x) (λ b, Rsum (zip_with f (slice x b k) (slice y b k))).

(** [B * W * H], the number of elements that contribute to the statistics
    of one channel. *)
Definition batch_count (l : layer R) (inp : tensor4 R) : nat :=
  dim0 inp * W l * H l.

(** * The scenarios of the specification *)

Section Scenarios.
Context {A : Type} {weight : Weight A}.

(** One channel of one element, as [init_layer] leaves it: [gamma = 1],
    [beta = 0], running statistics at zero, [momentum = 0.9]. *)
Definition scenario_layer : layer A := init_layer 1 1 1 new_layer.

(** A batch of two samples, 2 and 4. *)
Definition scenario_input : tensor4 A := Tensor4 2 1 1 1 [of_size 2; of_size 4].

Definition scenario_output : tensor4 A := alloc4 (2, 1, 1, 1).

Definition scenario_context : sgd_context A := new_sgd_context 2 scenario_layer.

(** A batch of three samples, 1, 2 and 3. *)
Definition three_input : tensor4 A :=
  Tensor4 3 1 1 1 [of_size 1; of_size 2; of_size 3].

Definition three_output : tensor4 A := alloc4 (3, 1, 1, 1).

End Scenarios.

(** * Vocabulary of the further properties *)

(** The layer with its running statistics replaced by the statistics of
    the last batch. *)
Definition with_batch_statistics {A : Type} (l : layer A) : layer A :=
  Layer (gamma l) (beta l) (last_mean l) (last_var l)
        (last_mean l) (last_var l) (inv_var l) (input_pre l)
        (momentum l) (bak_gamma l) (bak_beta l) (Kernels l) (W l) (H l).

(** Two layers that differ at most in what the training pass caches:
    [last_mean], [last_var], [inv_var] and [input_pre]. *)
Definition same_but_cache {A : Type} (l l' : layer A) : Prop :=
  gamma l' = gamma l ∧ beta l' = beta l ∧ mean l' = mean l ∧ var l' = var l ∧
  momentum l' = momentum l ∧ bak_gamma l' = bak_gamma l ∧
  bak_beta l' = bak_beta l ∧
  Kernels l' = Kernels l ∧ W l' = W l ∧ H l' = H l.

(** The scenario layer holding the cache of an earlier batch of three
    samples. *)
Definition scenario_stale_layer {A : Type} {weight : Weight A} : layer A :=
  let l := scenario_layer in
  Layer (gamma l) (beta l) (mean l) (var l)
        [of_size 5] [of_size 7] [of_size 1] three_input
        (momentum l) (bak_gamma l) (bak_beta l) (Kernels l) (W l) (H l).

(** [t] with [f] applied to every element. *)
Definition tensor_map {A : Type} (f : A → A) (t : tensor4 A) : tensor4 A :=
  Tensor4 (dim0 t) (dim1 t) (dim2 t) (dim3 t) (map f (memory t)).

(** A context for the batch of two samples whose errors are 1 and 3. *)
Definition scenario_error_context {A : Type} {weight : Weight A}
  : sgd_context A :=
  SgdContext scenario_input scenario_output
             (Tensor4 2 1 1 1 [of_size 1; of_size 3])
             (dyn_vector 1) (dyn_vector 1).

(** The context with [f] applied to every element of its errors. *)
Definition map_errors {A : Type} (f : A → A) (context : sgd_context A)
  : sgd_context A :=
  SgdContext (input context) (output context)
             (tensor_map f (errors context))
             (w_grad context) (b_grad context).

(** A batch of three samples that are all 7. *)
Definition constant_input {A : Type} {weight : Weight A} : tensor4 A :=
  Tensor4 3 1 1 1 [of_size 7; of_size 7; of_size 7].

(** A batch of the single sample 2, with an output buffer for it. *)
Definition single_input {A : Type} {weight : Weight A} : tensor4 A :=
  Tensor4 1 1 1 1 [of_size 2].

Definition single_output {A : Type} {weight : Weight A} : tensor4 A :=
  alloc4 (1, 1, 1, 1).

(** A call of the training pass within its contract in exact arithmetic:
    an input of the shape of the layer, an output buffer of the shape of
    the input, and at least two observations per channel, their number
    representable in [size_t]. *)
Definition call_ready (l : layer R) (c : tensor4 R * tensor4 R) : Prop :=
  fits l c.2 ∧ wf_tensor c.1 ∧ dims c.1 = dims c.2 ∧
  (Z.of_nat (batch_count l c.2) < size_t_modulus)%Z ∧
  2 ≤ batch_count l c.2.

(** The same of an initialized layer. *)
Definition train_ready (l : layer R) (out inp : tensor4 R) : Prop :=
  wf_layer l ∧ call_ready l (out, inp).

(** The mean and the biased variance of channel [k] of a batch. *)
Definition channel_mean (l : layer R) (inp : tensor4 R) (k : nat) : R :=
  (batch_sum inp k (λ v, v) / INR (batch_count l inp))%R.

Definition channel_var (l : layer R) (inp : tensor4 R) (k : nat) : R :=
  (1 / INR (batch_count l inp) *
   batch_sum inp k (λ v, (v - channel_mean l inp k) *
                         (v - channel_mean l inp k)))%R.

(** The value of the quotient [S / (S - 1)] of line 173 for [S] of at
    least 2. *)
Definition size_ratio (s : nat) : R := if decide (s = 2) then 2%R else 1%R.

(** The factor of the inference pass for a running variance [v]. *)
Definition inference_factor (v : R) : R := (1 / sqrt (v + 1e-8))%R.

(** * Loops *)

Section Loops.
Context {St : Type}.
Implicit Types (body : nat → St → option St).

(** The loop rule: an invariant indexed by the number of iterations done,
    which every iteration in range re-establishes, holds at the end, and
    the loop does return. *)
Lemma for_loop_inv (Inv : nat → St → Prop) n body s :
  Inv 0 s →
  (∀ i t, i < n → Inv i t → ∃ t', body i t = Some t' ∧ Inv (S i) t') →
  ∃ t, for_loop n body s = Some t ∧ Inv n t.
Proof.
  intros Hinit Hstep. induction n as [|n IH]; [by exists s|].
  destruct IH as (t & Hrun & Ht); [intros i u ?; apply Hstep; lia|].
  destruct (Hstep n t) as (t' & Hbody & Ht'); [lia|done|].
  exists t'. by rewrite /= Hrun.
Qed.

(** The same for the nest [for b < B: for k < K]. *)
Lemma for_loop2_inv (Inv : nat → nat → St → Prop) B K
      (body : nat → nat → St → option St) s :
  Inv 0 0 s →
  (∀ b k t, b < B → k < K → Inv b k t →
            ∃ t', body b k t = Some t' ∧ Inv b (S k) t') →
  (∀ b t, b < B → Inv b K t → Inv (S b) 0 t) →
  ∃ t, for_loop B (λ b, for_loop K (body b)) s = Some t ∧ Inv B 0 t.
Proof.
  intros Hinit Hstep Hrow.
  apply (for_loop_inv (λ b t, Inv b 0 t)); [done|].
  intros b t Hb Ht.
  destruct (for_loop_inv (Inv b) K (body b) t) as (t' & Hrun & Ht'); [done| |].
  - intros k u Hk Hu. by apply Hstep.
  - exists t'. split; [done|]. by apply Hrow.
Qed.

(** Partial correctness: what every iteration preserves holds of the
    result. *)
Lemma for_loop_pres (P : St → Prop) n body s t :
  P s →
  (∀ i u u', P u → body i u = Some u' → P u') →
  for_loop n body s = Some t → P t.
Proof.
  intros Hs Hstep. revert t. induction n as [|n IH]; intros t Hrun.
  - by simplify_eq/=.
  - simpl in Hrun. destruct (for_loop n body s) as [u|] eqn:Hu; [|done].
    simpl in Hrun. eapply Hstep; [|done]. by apply IH.
Qed.

Lemma for_loop2_pres (P : St → Prop) B K
      (body : nat → nat → St → option St) s t :
  P s →
  (∀ b k u u', P u → body b k u = Some u' → P u') →
  for_loop B (λ b, for_loop K (body b)) s = Some t → P t.
Proof.
  intros Hs Hstep. apply for_loop_pres; [done|].
  intros b u u' Hu. apply for_loop_pres; [done|]. intros k. apply Hstep.
Qed.

End Loops.

(** * Views of a tensor *)

Section Views.
Context {A : Type}.
Implicit Types (t : tensor4 A) (vs : list A).

Lemma slice_off_bound t b k :
  b < dim0 t → k < dim1 t →
  slice_off t b k + slice_len t ≤ dim0 t * dim1 t * dim2 t * dim3 t.
Proof.
  rewrite /slice_off /slice_len. intros Hb Hk.
  assert (b * dim1 t + k + 1 ≤ dim0 t * dim1 t) as Hle by nia.
  apply (Nat.mul_le_mono_r _ _ (dim2 t * dim3 t)) in Hle. lia.
Qed.

(** Two views with different indices do not overlap. *)
Lemma slice_off_apart t b k b' k' :
  k < dim1 t → k' < dim1 t → (b, k) ≠ (b', k') →
  slice_off t b k + slice_len t ≤ slice_off t b' k' ∨
  slice_off t b' k' + slice_len t ≤ slice_off t b k.
Proof.
  rewrite /slice_off. intros Hk Hk' Hne.
  assert (b * dim1 t + k ≠ b' * dim1 t + k') as Hlin.
  { intros Heq. apply Hne.
    assert (b = b') as -> by nia. f_equal. lia. }
  destruct (decide (b * dim1 t + k < b' * dim1 t + k')) as [Hlt|Hge].
  - left. assert (b * dim1 t + k + 1 ≤ b' * dim1 t + k') as Hle by lia.
    apply (Nat.mul_le_mono_r _ _ (slice_len t)) in Hle. lia.
  - right. assert (b' * dim1 t + k' + 1 ≤ b * dim1 t + k) as Hle by lia.
    apply (Nat.mul_le_mono_r _ _ (slice_len t)) in Hle. lia.
Qed.

Lemma slice_length t b k :
  wf_tensor t → b < dim0 t → k < dim1 t → length (slice t b k) = slice_len t.
Proof.
  intros Hwf Hb Hk. pose proof (slice_off_bound t b k Hb Hk) as Hle.
  rewrite /slice length_take length_drop Hwf. lia.
Qed.

Lemma sub4_Some t b k xs :
  sub4 t b k = Some xs ↔ (b < dim0 t ∧ k < dim1 t) ∧ xs = slice t b k.
Proof.
  rewrite /sub4. case_decide as Hr.
  - split; [by intros [= <-]|by intros [_ ->]].
  - split; [done|]. by intros [? _].
Qed.

Lemma sub4_in_range t b k :
  b < dim0 t → k < dim1 t → sub4 t b k = Some (slice t b k).
Proof. intros. apply sub4_Some. auto. Qed.

Lemma sub4_assign_dims t b k vs t' :
  sub4_assign t b k vs = Some t' → dims t' = dims t.
Proof. rewrite /sub4_assign. case_decide; [|done]. by intros [= <-]. Qed.

Lemma sub4_assign_in_range t b k vs :
  b < dim0 t → k < dim1 t → length vs = slice_len t →
  is_Some (sub4_assign t b k vs).
Proof. intros. rewrite /sub4_assign decide_True; eauto. Qed.

Lemma sub4_assign_wf t b k vs t' :
  wf_tensor t → sub4_assign t b k vs = Some t' → wf_tensor t'.
Proof.
  rewrite /sub4_assign /wf_tensor. intros Hwf.
  case_decide as Hr; [|done]. destruct Hr as (Hb & Hk & Hlen).
  intros [= <-]. pose proof (slice_off_bound t b k Hb Hk) as Hle.
  rewrite /= !length_app length_take length_drop Hlen Hwf.
  move: Hle. generalize (dim0 t * dim1 t * dim2 t * dim3 t) (slice_off t b k)
    (slice_len t). lia.
Qed.

(** The view that was assigned holds the assigned elements. *)
Lemma slice_assign_same t b k vs t' :
  wf_tensor t → sub4_assign t b k vs = Some t' → slice t' b k = vs.
Proof.
  rewrite /sub4_assign /wf_tensor. intros Hwf.
  case_decide as Hr; [|done]. destruct Hr as (Hb & Hk & Hlen).
  intros [= <-]. pose proof (slice_off_bound t b k Hb Hk) as Hle.
  rewrite /slice /=.
  change (slice_len (Tensor4 _ _ _ _ _)) with (slice_len t).
  change (slice_off (Tensor4 _ _ _ _ _) b k) with (slice_off t b k).
  rewrite drop_app_length'; [|rewrite length_take; lia].
  rewrite take_app_length'; [done|lia].
Qed.

(** Every other view is as before. *)
Lemma slice_assign_other t b k vs t' b' k' :
  wf_tensor t → sub4_assign t b k vs = Some t' →
  k' < dim1 t → (b, k) ≠ (b', k') →
  slice t' b' k' = slice t b' k'.
Proof.
  rewrite /sub4_assign /wf_tensor. intros Hwf.
  case_decide as Hr; [|done]. destruct Hr as (Hb & Hk & Hlen).
  intros [= <-] Hk' Hne.
  pose proof (slice_off_bound t b k Hb Hk) as Hle.
  pose proof (slice_off_apart t b k b' k' Hk Hk' Hne) as Hapart.
  rewrite /slice /=.
  change (slice_len (Tensor4 _ _ _ _ _)) with (slice_len t).
  change (slice_off (Tensor4 _ _ _ _ _) b' k') with (slice_off t b' k').
  set (o := slice_off t b k) in *. set (o' := slice_off t b' k') in *.
  set (L := slice_len t) in *.
  apply list_eq. intros i.
  destruct (decide (i < L)) as [Hi|Hi];
    [|by rewrite !lookup_take_ge; [|lia..]].
  rewrite !lookup_take_lt ?lookup_drop; [|lia..].
  destruct Hapart as [Hafter|Hbefore].
  - rewrite lookup_app_r length_take; [|lia].
    rewrite lookup_app_r; [|lia].
    rewrite lookup_drop. f_equal. lia.
  - rewrite lookup_app_l; [|rewrite length_take; lia].
    rewrite lookup_take_lt; [done|lia].
Qed.

(** A well-formed tensor is its views, in order: two tensors of the same
    dimensions whose views agree are equal. *)
Lemma segments_ext (N L : nat) (l1 l2 : list A) :
  length l1 = N * L → length l2 = N * L →
  (∀ n, n < N → take L (drop (n * L) l1) = take L (drop (n * L) l2)) →
  l1 = l2.
Proof.
  revert l1 l2. induction N as [|N IH]; intros l1 l2 H1 H2 Hseg.
  - destruct l1, l2; by simplify_eq/=.
  - rewrite -(take_drop L l1) -(take_drop L l2). f_equal.
    + apply (Hseg 0). lia.
    + apply IH; [rewrite length_drop; lia..|].
      intros n Hn. rewrite !drop_drop.
      replace (L + n * L) with (S n * L) by lia. apply Hseg. lia.
Qed.

Lemma tensor_ext t1 t2 :
  wf_tensor t1 → wf_tensor t2 → dims t1 = dims t2 →
  (∀ b k, b < dim0 t1 → k < dim1 t1 → slice t1 b k = slice t2 b k) →
  t1 = t2.
Proof.
  destruct t1 as [a0 a1 a2 a3 m1], t2 as [b0 b1 b2 b3 m2].
  rewrite /wf_tensor /dims /=. intros Hw1 Hw2 [= <- <- <- <-] Hsl.
  f_equal. apply (segments_ext (a0 * a1) (a2 * a3)); [lia..|].
  intros n Hn.
  destruct (decide (a1 = 0)) as [->|Hpos]; [lia|].
  specialize (Hsl (n / a1) (n `mod` a1)).
  rewrite /slice /slice_off /slice_len /= in Hsl.
  replace (n / a1 * a1 + n `mod` a1) with n in Hsl
    by (pose proof (Nat.div_mod_eq n a1); lia).
  apply Hsl; [|by apply Nat.mod_upper_bound].
  apply Nat.Div0.div_lt_upper_bound. lia.
Qed.

End Views.

(** * The loops of the layer *)

Section Passes.
Context {A : Type} {weight : Weight A}.
Implicit Types (l : layer A) (t inp out pre : tensor4 A).

Lemma dims_eq t1 t2 :
  dims t1 = dims t2 →
  dim0 t1 = dim0 t2 ∧ dim1 t1 = dim1 t2 ∧ dim2 t1 = dim2 t2 ∧
  dim3 t1 = dim3 t2 ∧ slice_len t1 = slice_len t2.
Proof. rewrite /dims /slice_len. by intros [= -> -> -> ->]. Qed.

Lemma filled_start t F : filled_upto t F 0 0.
Proof. intros b' k' _ [?|[_ ?]]; lia. Qed.

Lemma filled_next_row t F b :
  filled_upto t F b (dim1 t) → filled_upto t F (S b) 0.
Proof.
  intros Hf b' k' Hk' [Hb'|[_ ?]]; [|lia]. apply Hf; [done|].
  destruct (decide (b' = b)) as [->|]; [right|left]; lia.
Qed.

Lemma filled_assign t t' F b k :
  wf_tensor t → sub4_assign t b k (F b k) = Some t' →
  filled_upto t F b k → filled_upto t' F b (S k).
Proof.
  intros Hwf Has Hf b' k' Hk' Hlt.
  destruct (dims_eq _ _ (sub4_assign_dims _ _ _ _ _ Has)) as (_ & Hd1 & _).
  rewrite Hd1 in Hk'.
  destruct (decide ((b, k) = (b', k'))) as [[= <- <-]|Hne].
  - by eapply slice_assign_same.
  - rewrite (slice_assign_other t b k (F b k) t' b' k') //.
    apply Hf; [done|]. destruct Hlt as [?|[-> ?]]; [by left|right].
    split; [done|]. destruct (decide (k' = k)) as [->|]; [done|lia].
Qed.

Lemma filled_all t F B :
  filled_upto t F B 0 → ∀ b k, b < B → k < dim1 t → slice t b k = F b k.
Proof. intros Hf b k Hb Hk. apply Hf; auto. Qed.

(** A nest whose body assigns [F b k] to the view [(b, k)] fills the
    tensor with [F]. *)
Lemma fill_loop_spec (body : nat → nat → tensor4 A → option (tensor4 A)) F B K o :
  wf_tensor o → dim0 o = B → dim1 o = K →
  (∀ b k, b < B → k < K → length (F b k) = slice_len o) →
  (∀ b k t, b < B → k < K → body b k t = sub4_assign t b k (F b k)) →
  ∃ o', for_loop B (λ b, for_loop K (body b)) o = Some o' ∧
        wf_tensor o' ∧ dims o' = dims o ∧
        ∀ b k, b < B → k < K → slice o' b k = F b k.
Proof.
  intros Hwf HB HK Hlen Hbody.
  destruct (for_loop2_inv
    (λ b k t, wf_tensor t ∧ dims t = dims o ∧ filled_upto t F b k)
    B K body o) as (o' & Hrun & Hw' & Hd' & Hf').
  - split_and!; [done..|apply filled_start].
  - intros b k t Hb Hk (Hwt & Hdt & Hft).
    destruct (dims_eq _ _ Hdt) as (Hd0 & Hd1 & _ & _ & HL).
    destruct (sub4_assign_in_range t b k (F b k)) as [t' Ht']; [lia..| |].
    { rewrite HL. by apply Hlen. }
    exists t'. rewrite Hbody //. split; [done|]. split_and!.
    + by eapply sub4_assign_wf.
    + by rewrite (sub4_assign_dims _ _ _ _ _ Ht').
    + by eapply filled_assign.
  - intros b t Hb (Hwt & Hdt & Hft). split_and!; [done..|].
    destruct (dims_eq _ _ Hdt) as (_ & Hd1 & _).
    apply filled_next_row. by rewrite Hd1 HK.
  - exists o'. split_and!; [done..|]. intros b k Hb Hk.
    destruct (dims_eq _ _ Hd') as (_ & Hd1 & _).
    apply (filled_all _ _ B); [done..|lia].
Qed.

Lemma batch_acc_S (f : nat → A) n :
  batch_acc f (S n) = wadd (batch_acc f n) (f n).
Proof. by rewrite /batch_acc seq_S foldl_app. Qed.

Lemma batch_acc_ext (f g : nat → A) n :
  (∀ b, b < n → f b = g b) → batch_acc f n = batch_acc g n.
Proof.
  induction n as [|n IH]; intros Hfg; [done|].
  rewrite !batch_acc_S IH; [|intros b ?; apply Hfg; lia].
  rewrite Hfg; [done|lia].
Qed.

Lemma bias_batch_sum_4d_length t : length (bias_batch_sum_4d t) = dim1 t.
Proof. by rewrite /bias_batch_sum_4d length_map length_seq. Qed.

Lemma bias_batch_sum_4d_lookup t k :
  k < dim1 t →
  bias_batch_sum_4d t !! k = Some (batch_acc (λ b, sum (slice t b k)) (dim0 t)).
Proof.
  intros Hk. rewrite /bias_batch_sum_4d list_lookup_fmap lookup_seq_lt //.
Qed.

Lemma lookup_nth (v : list A) k d : k < length v → v !! k = Some (nth k v d).
Proof.
  intros Hk. destruct (lookup_lt_is_Some_2 v k Hk) as [x Hx].
  by rewrite (nth_lookup_Some _ _ _ _ Hx).
Qed.

(** The loop that accumulates the variance. *)
Lemma var_loop_spec inp lmean B K :
  dim0 inp = B → dim1 inp = K → length lmean = K →
  ∃ lv, for_loop B (λ b, for_loop K (var_body inp lmean b)) (replicate K wzero)
          = Some lv ∧
        length lv = K ∧
        ∀ k, k < K → lv !! k = Some (batch_acc (λ b, sq_dev inp lmean b k) B).
Proof.
  intros HB HK Hlm.
  destruct (for_loop2_inv
    (λ b k lv, length lv = K ∧ ∀ k', k' < K →
       lv !! k' = Some (batch_acc (λ b', sq_dev inp lmean b' k')
                                  (if decide (k' < k) then S b else b)))
    B K (var_body inp lmean) (replicate K wzero)) as (lv & Hrun & Hlen & Hlv).
  - split; [by rewrite length_replicate|]. intros k' Hk'.
    by rewrite lookup_replicate_2.
  - intros b k lv Hb Hk [Hlen Hlv].
    rewrite /var_body sub4_in_range; [|lia..].
    rewrite (lookup_nth lmean k wzero); [|lia].
    rewrite (Hlv k Hk) decide_False; [|lia]. simpl.
    eexists; split; [done|]. split; [by rewrite length_insert|].
    intros k' Hk'. destruct (decide (k' = k)) as [->|Hne].
    + rewrite list_lookup_insert_eq; [|lia].
      rewrite decide_True; [|lia]. by rewrite batch_acc_S.
    + rewrite list_lookup_insert_ne // (Hlv k' Hk').
      do 2 case_decide; (done || lia).
  - intros b lv Hb [Hlen Hlv]. split; [done|]. intros k' Hk'.
    rewrite (Hlv k' Hk') decide_True // decide_False //; lia.
  - exists lv. split_and!; [done..|]. intros k Hk.
    by rewrite (Hlv k Hk).
Qed.

(** The loop that fills the cache and the output. *)
Lemma norm_loop_spec l inp lmean ivar pre out B K :
  wf_tensor inp → dim0 inp = B → dim1 inp = K →
  wf_tensor pre → dims pre = dims inp →
  wf_tensor out → dims out = dims inp →
  length lmean = K → length ivar = K →
  length (gamma l) = K → length (beta l) = K →
  ∃ st, for_loop B (λ b, for_loop K (norm_body l inp lmean ivar b)) (pre, out)
          = Some st ∧
        (wf_tensor st.1 ∧ dims st.1 = dims inp) ∧
        (wf_tensor st.2 ∧ dims st.2 = dims inp) ∧
        ∀ b k, b < B → k < K →
          slice st.1 b k =
            map (λ v, wmul (wsub v (nth k lmean wzero)) (nth k ivar wzero))
                (slice inp b k) ∧
          slice st.2 b k =
            map (λ v, wadd (wmul (nth k (gamma l) wzero) v) (nth k (beta l) wzero))
                (slice st.1 b k).
Proof.
  intros Hwi HB HK Hwp Hdp Hwo Hdo Hlm Hiv Hg Hbt.
  set (F := λ b k, map (λ v, wmul (wsub v (nth k lmean wzero)) (nth k ivar wzero))
                       (slice inp b k)).
  set (G := λ b k, map (λ v, wadd (wmul (nth k (gamma l) wzero) v)
                                  (nth k (beta l) wzero)) (F b k)).
  destruct (for_loop2_inv
    (λ b k st, (wf_tensor st.1 ∧ dims st.1 = dims inp) ∧
               (wf_tensor st.2 ∧ dims st.2 = dims inp) ∧
               filled_upto st.1 F b k ∧ filled_upto st.2 G b k)
    B K (norm_body l inp lmean ivar) (pre, out))
    as (st & Hrun & [Hw1 Hd1] & [Hw2 Hd2] & Hf1 & Hf2).
  - split_and!; [done..|apply filled_start|apply filled_start].
  - intros b k [p o] Hb Hk ([Hwp' Hdp'] & [Hwo' Hdo'] & Hfp & Hfo).
    simpl in Hwp', Hdp', Hwo', Hdo', Hfp, Hfo.
    destruct (dims_eq _ _ Hdp') as (Hp0 & Hp1 & _ & _ & HpL).
    destruct (dims_eq _ _ Hdo') as (Ho0 & Ho1 & _ & _ & HoL).
    assert (length (F b k) = slice_len inp) as HlenF.
    { rewrite /F length_map slice_length //; lia. }
    destruct (sub4_assign_in_range p b k (F b k)) as [p' Hp']; [lia..|].
    destruct (sub4_assign_in_range o b k (G b k)) as [o' Ho'];
      [lia..|by rewrite /G length_map HlenF|].
    destruct (dims_eq _ _ (sub4_assign_dims _ _ _ _ _ Hp')) as (Hq0 & Hq1 & _).
    exists (p', o'). split.
    + rewrite /norm_body /= sub4_in_range; [|lia..].
      rewrite (lookup_nth lmean k wzero); [|lia].
      rewrite (lookup_nth ivar k wzero) /=; [|lia].
      fold (F b k). rewrite Hp' /= sub4_in_range; [|lia..].
      rewrite (lookup_nth (gamma l) k wzero); [|lia].
      rewrite (lookup_nth (beta l) k wzero) /=; [|lia].
      rewrite (slice_assign_same _ _ _ _ _ Hwp' Hp'). fold (G b k).
      by rewrite Ho'.
    + simpl. split_and!.
      * apply (sub4_assign_wf _ _ _ _ _ Hwp' Hp').
      * by rewrite (sub4_assign_dims _ _ _ _ _ Hp').
      * apply (sub4_assign_wf _ _ _ _ _ Hwo' Ho').
      * by rewrite (sub4_assign_dims _ _ _ _ _ Ho').
      * apply (filled_assign _ _ _ _ _ Hwp' Hp' Hfp).
      * apply (filled_assign _ _ _ _ _ Hwo' Ho' Hfo).
  - intros b [p o] Hb ([Hwp' Hdp'] & [Hwo' Hdo'] & Hfp & Hfo).
    simpl in *. split_and!; [done..| |].
    + destruct (dims_eq _ _ Hdp') as (_ & Hp1 & _).
      apply filled_next_row. by rewrite Hp1 HK.
    + destruct (dims_eq _ _ Hdo') as (_ & Ho1 & _).
      apply filled_next_row. by rewrite Ho1 HK.
  - exists st. split_and!; [done..|]. intros b k Hb Hk.
    destruct (dims_eq _ _ Hd1) as (_ & Hp1 & _).
    destruct (dims_eq _ _ Hd2) as (_ & Ho1 & _).
    rewrite (filled_all _ _ B Hf1) //; [|lia].
    rewrite (filled_all _ _ B Hf2) //; lia.
Qed.

Lemma mbind_Some {X Y : Type} (x : X) (f : X → option Y) : Some x ≫= f = f x.
Proof. done. Qed.

Lemma vec_assign_same_length (dst src : list A) :
  length dst = length src → vec_assign dst src = Some src.
Proof. intros. rewrite /vec_assign decide_True; auto. Qed.

Lemma zip_same_length (f : A → A → A) xs ys :
  length xs = length ys → zip_same f xs ys = Some (zip_with f xs ys).
Proof. intros. by rewrite /zip_same decide_True. Qed.

Lemma vec_scale_length (c : A) v : length (vec_scale c v) = length v.
Proof. by rewrite /vec_scale length_map. Qed.

Lemma tabulate_eq (v : list A) (f : nat → A) K :
  length v = K → (∀ k, k < K → v !! k = Some (f k)) → v = map f (seq 0 K).
Proof.
  intros Hlen Hv. apply list_eq. intros k.
  destruct (decide (k < K)) as [Hk|Hk].
  - by rewrite list_lookup_fmap lookup_seq_lt // Hv.
  - rewrite !lookup_ge_None_2 //; [rewrite length_map length_seq|]; lia.
Qed.

Lemma batch_S_range l B : (0 ≤ batch_S l B < size_t_modulus)%Z.
Proof. rewrite /batch_S /size_mul /size_wrap. by apply Z.mod_pos_bound. Qed.

Lemma size_sub_one_nonzero s :
  (0 ≤ s < size_t_modulus)%Z → s ≠ 1%Z → size_sub s 1 ≠ 0%Z.
Proof.
  rewrite /size_sub /size_wrap /size_t_modulus. intros Hs Hne Hz.
  destruct (decide (s = 0%Z)) as [->|Hpos]; [done|].
  rewrite Z.mod_small in Hz; lia.
Qed.

Lemma alloc4_wf d : wf_tensor (alloc4 d) ∧ dims (alloc4 d) = d.
Proof.
  destruct d as [[[d0 d1] d2] d3]. split; [|done].
  by rewrite /wf_tensor /= length_replicate.
Qed.

Lemma inherit_if_null_spec t src :
  wf_tensor t →
  wf_tensor (inherit_if_null t src) ∧ dims (inherit_if_null t src) = dims src.
Proof.
  intros Hwf. rewrite /inherit_if_null. case_decide as Hc.
  - by destruct Hc.
  - apply alloc4_wf.
Qed.

(** The first block returns whenever the input has the shape of the layer
    and the output buffer that of the input; it leaves the running
    statistics alone. *)
Lemma train_normalize_spec l out inp :
  wf_layer l → fits l inp → wf_tensor out → dims out = dims inp →
  ∃ lc o1, train_normalize l out inp = Some (lc, o1) ∧
           norm_post l inp lc o1 ∧ train_frame l lc ∧ wf_layer lc ∧
           mean lc = mean l ∧ var lc = var l.
Proof.
  intros (Hg & Hb & Hm & Hv & Hlm & Hlv & Hiv & Hpre) (Hwi & Hk & _ & _)
         Hwo Hdo.
  set (K := Kernels l) in *. set (B := dim0 inp).
  set (lm := bias_batch_mean_4d inp).
  assert (length lm = K) as Hlm1.
  { by rewrite /lm /bias_batch_mean_4d length_map bias_batch_sum_4d_length. }
  destruct (var_loop_spec inp lm B K) as (lv & Hrunv & Hlenv & Hlvk); [done..|].
  set (lv3 := map (λ v, wdiv v (of_size (batch_S l B))) lv).
  set (iv := map (λ v, wdiv wone (wsqrt (wadd v e))) lv3).
  assert (length lv3 = K) as Hlv3 by by rewrite /lv3 length_map.
  assert (length iv = K) as Hiv1 by by rewrite /iv length_map.
  destruct (inherit_if_null_spec (input_pre l) inp Hpre) as [Hwp Hdp].
  destruct (norm_loop_spec l inp lm iv (inherit_if_null (input_pre l) inp) out B K)
    as (st & Hrunn & [Hw1 Hd1] & [Hw2 Hd2] & Hst); [done..|].
  eexists _, _. split; [|split_and!].
  - rewrite /train_normalize. cbv zeta.
    rewrite vec_assign_same_length; [|by rewrite Hlm].
    rewrite mbind_Some /vec_fill Hlv. fold K B lm.
    rewrite Hrunv mbind_Some. fold lv3.
    rewrite vec_assign_same_length; [|by rewrite length_map Hiv].
    rewrite mbind_Some. fold iv. by rewrite Hrunn mbind_Some.
  - rewrite /norm_post /=. split_and!; [done| |done..].
    by rewrite /lv3 (tabulate_eq lv _ K Hlenv Hlvk) map_map.
  - by rewrite /train_frame.
  - by rewrite /wf_layer /=.
  - done.
  - done.
Qed.

(** The second block returns whenever [S] is not 1. *)
Lemma train_update_running_spec l s :
  wf_layer l → (0 ≤ s < size_t_modulus)%Z → s ≠ 1%Z →
  ∃ l1, train_update_running l s = Some l1 ∧
        running_post l s l1 ∧ same_cache l l1 ∧ train_frame l l1 ∧ wf_layer l1.
Proof.
  intros (Hg & Hb & Hm & Hv & Hlm & Hlv & Hiv & Hpre) Hs HS.
  eexists. split; [|split_and!].
  - rewrite /train_update_running.
    rewrite zip_same_length; [|by rewrite !vec_scale_length Hm].
    rewrite mbind_Some vec_assign_same_length;
      [|by rewrite length_zip_with !vec_scale_length Hm Hlm Nat.min_id].
    rewrite mbind_Some /size_div decide_False;
      [|by apply size_sub_one_nonzero].
    rewrite mbind_Some zip_same_length; [|by rewrite !vec_scale_length Hv].
    rewrite mbind_Some vec_assign_same_length;
      [|by rewrite length_zip_with !vec_scale_length Hv Hlv Nat.min_id].
    by rewrite mbind_Some.
  - by rewrite /running_post.
  - by rewrite /same_cache.
  - by rewrite /train_frame.
  - rewrite /wf_layer /=. split_and!; try done.
    + by rewrite length_zip_with !vec_scale_length Hm Hlm Nat.min_id.
    + by rewrite length_zip_with !vec_scale_length Hv Hlv Nat.min_id.
Qed.

(** When the second block returns, it has assigned the running statistics
    only. *)
Lemma train_update_running_Some l s l1 :
  train_update_running l s = Some l1 → same_cache l l1 ∧ train_frame l l1.
Proof.
  rewrite /train_update_running.
  intros (me & _ & (m1 & _ & (q & _ & (ve & _ &
    (v1 & _ & [= <-])%bind_Some)%bind_Some)%bind_Some)%bind_Some)%bind_Some.
  by rewrite /same_cache /train_frame.
Qed.

(** The training pass is its first block followed by the second. *)
Lemma train_unfold l out inp l1 o1 :
  train_batch_activate_hidden l out inp = Some (l1, o1) ↔
  ∃ lc, train_normalize l out inp = Some (lc, o1) ∧
        train_update_running lc (batch_S l (dim0 inp)) = Some l1.
Proof.
  rewrite /train_batch_activate_hidden. split.
  - intros ([lc o] & Hn & (l2 & Hu & [= <- <-])%bind_Some)%bind_Some.
    by exists lc.
  - intros (lc & Hn & Hu). by rewrite Hn /= Hu.
Qed.

Lemma train_frame_trans (l lc l1 : layer A) :
  train_frame l lc → train_frame lc l1 → train_frame l l1.
Proof.
  rewrite /train_frame.
  intros (? & ? & ? & ? & ? & ? & ? & ?) (? & ? & ? & ? & ? & ? & ? & ?).
  split_and!; congruence.
Qed.

(** The training pass returns whenever its input has the shape of the
    layer, the output buffer that of the input, and [B * W * H] is not 1;
    the result is as [train_post] says. *)
Lemma train_spec l out inp :
  wf_layer l → fits l inp → wf_tensor out → dims out = dims inp →
  batch_S l (dim0 inp) ≠ 1%Z →
  ∃ l1 o1, train_batch_activate_hidden l out inp = Some (l1, o1) ∧
           train_post l inp l1 o1 ∧ train_frame l l1 ∧ wf_layer l1.
Proof.
  intros Hwl Hfit Hwo Hdo HS.
  destruct (train_normalize_spec l out inp)
    as (lc & o1 & Hn & Hpost & Hfr & Hwlc & Hmc & Hvc); [done..|].
  destruct (train_update_running_spec lc (batch_S l (dim0 inp)))
    as (l1 & Hu & [Hmean Hvar] & (Hc1 & Hc2 & Hc3 & Hc4) & Hfr1 & Hwl1);
    [done|apply batch_S_range|done|].
  exists l1, o1. split_and!; [|split|by eapply train_frame_trans|done].
  - apply train_unfold. by exists lc.
  - rewrite /norm_post Hc1 Hc2 Hc3 Hc4. apply Hpost.
  - destruct Hfr as (_ & _ & Hmo & _). destruct Hfr1 as (_ & _ & Hmo1 & _).
    rewrite /running_post Hmean Hvar Hc1 Hc2 Hmc Hvc Hmo. done.
Qed.

Lemma lookup_map_nth (f : A → A) (v : list A) k d :
  k < length v → map f v !! k = Some (f (nth k v d)).
Proof. intros Hk. by rewrite list_lookup_fmap (lookup_nth v k d). Qed.

(** The inference pass returns on every input whose channel count is that
    of the layer, and fills the output view by view. *)
Lemma test_spec l out inp :
  length (gamma l) = Kernels l → length (beta l) = Kernels l →
  length (mean l) = Kernels l → length (var l) = Kernels l →
  wf_tensor inp → dim1 inp = Kernels l →
  wf_tensor out → dims out = dims inp →
  ∃ o1, test_batch_activate_hidden l out inp = Some (l, o1) ∧
        (wf_tensor o1 ∧ dims o1 = dims inp) ∧
        ∀ b k, b < dim0 inp → k < Kernels l →
          slice o1 b k =
            map (λ v, wadd (wmul (nth k (gamma l) wzero)
                              (wmul (wsub v (nth k (mean l) wzero))
                                    (wdiv wone (wsqrt (wadd (nth k (var l) wzero) e)))))
                           (nth k (beta l) wzero))
                (slice inp b k).
Proof.
  intros Hg Hb Hm Hv Hwi Hk Hwo Hdo.
  destruct (dims_eq _ _ Hdo) as (Ho0 & Ho1 & _ & _ & HoL).
  set (iv := map (λ v, wdiv wone (wsqrt (wadd v e))) (var l)).
  destruct (fill_loop_spec (test_body l inp iv)
    (λ b k, map (λ v, wadd (wmul (nth k (gamma l) wzero)
                         (wmul (wsub v (nth k (mean l) wzero))
                               (wdiv wone (wsqrt (wadd (nth k (var l) wzero) e)))))
                      (nth k (beta l) wzero)) (slice inp b k))
    (dim0 inp) (Kernels l) out) as (o1 & Hrun & Hw1 & Hd1 & Hsl); [done|lia..| | |].
  - intros b k Hb' Hk'. rewrite length_map slice_length //; lia.
  - intros b k t Hb' Hk'. rewrite /test_body sub4_in_range; [|lia..].
    rewrite (lookup_nth (gamma l) k wzero); [|lia].
    rewrite (lookup_nth (mean l) k wzero); [|lia].
    rewrite /iv (lookup_map_nth _ (var l) k wzero); [|lia].
    by rewrite (lookup_nth (beta l) k wzero); [|lia].
  - exists o1. split_and!; [|done|congruence|done].
    by rewrite /test_batch_activate_hidden /= Hrun.
Qed.

Lemma test_Some_layer l out inp l1 o1 :
  test_batch_activate_hidden l out inp = Some (l1, o1) → l1 = l.
Proof.
  rewrite /test_batch_activate_hidden. cbv zeta.
  intros (o & _ & [= <- _])%bind_Some. done.
Qed.

(** The views of an elementwise product. *)
Lemma tensor_mul_spec a c p :
  tensor_mul a c = Some p →
  dims p = dims a ∧ ∀ b k, slice p b k = zip_with wmul (slice a b k) (slice c b k).
Proof.
  rewrite /tensor_mul. case_decide as Hd; [|done]. intros [= <-].
  split; [done|]. intros b k.
  destruct (dims_eq _ _ Hd) as (_ & Hd1 & _ & _ & HL).
  rewrite /slice /slice_off /= -Hd1 -HL.
  change (slice_len (Tensor4 _ _ _ _ _)) with (slice_len a).
  by rewrite zip_with_drop zip_with_take.
Qed.

Lemma tensor_mul_wf a c p :
  wf_tensor a → wf_tensor c → tensor_mul a c = Some p → wf_tensor p.
Proof.
  rewrite /tensor_mul /wf_tensor. intros Ha Hc. case_decide as Hd; [|done].
  intros [= <-]. rewrite /= length_zip_with Ha Hc.
  rewrite /dims in Hd. injection Hd as <- <- <- <-. lia.
Qed.

Lemma tensor_mul_same_dims a c :
  dims a = dims c → is_Some (tensor_mul a c).
Proof. intros Hd. rewrite /tensor_mul decide_True //. Qed.

(** The backward pass returns whenever the cache and the errors have the
    shape of the batch, and assigns [grad_slice] to every view. *)
Lemma backward_spec l out context :
  backward_pre l context →
  wf_tensor out → dims out = dims (errors context) →
  ∃ g, backward_batch l out context = Some (l, g) ∧
       (wf_tensor g ∧ dims g = dims (errors context)) ∧
       ∀ b k, b < dim0 (input context) → k < Kernels l →
              slice g b k = grad_slice l context b k.
Proof.
  intros (Hg & Hiv & Hwp & Hwe & Hk & HB & Hdp) Hwo Hdo.
  destruct (dims_eq _ _ Hdp) as (Hp0 & Hp1 & _ & _ & HpL).
  destruct (dims_eq _ _ Hdo) as (Ho0 & Ho1 & _ & _ & HoL).
  destruct (alloc4_wf (dims (errors context))) as [Hw0 Hd0].
  destruct (dims_eq _ _ Hd0) as (Ha0 & Ha1 & _ & _ & HaL).
  destruct (fill_loop_spec (dxhat_body l context) (dxhat_slice l context)
    (dim0 (input context)) (Kernels l) (force_temporary_dim_only (errors context))) as (dx & Hrun1 & Hwx & Hdx & Hsx);
    [done|rewrite /force_temporary_dim_only; lia..| | |].
  { intros b k Hb' Hk'.
    rewrite /dxhat_slice length_map (slice_length (errors context) b k Hwe); [|lia..].
    by rewrite /force_temporary_dim_only HaL. }
  { intros b k t Hb' Hk'. rewrite /dxhat_body sub4_in_range; [|lia..].
    by rewrite (lookup_nth (gamma l) k wzero); [|lia]. }
  rewrite /force_temporary_dim_only Hd0 in Hdx.
  destruct (dims_eq _ _ Hdx) as (Hx0 & Hx1 & _ & _ & HxL).
  destruct (tensor_mul_same_dims dx (input_pre l)) as [pr Hpr]; [congruence|].
  destruct (tensor_mul_spec _ _ _ Hpr) as [Hdpr Hspr].
  destruct (dims_eq _ _ Hdpr) as (Hr0 & Hr1 & _).
  assert (∀ k, k < Kernels l → bias_batch_sum_4d dx !! k = Some (dxhat_sum l context k))
    as Hsum.
  { intros k Hk'. rewrite bias_batch_sum_4d_lookup; [|lia].
    rewrite /dxhat_sum Hx0. f_equal. apply batch_acc_ext.
    intros b Hb'. rewrite Hsx //; lia. }
  assert (∀ k, k < Kernels l → bias_batch_sum_4d pr !! k = Some (dxhat_dot_xhat l context k))
    as Hdot.
  { intros k Hk'. rewrite bias_batch_sum_4d_lookup; [|lia].
    rewrite /dxhat_dot_xhat Hr0 Hx0. f_equal. apply batch_acc_ext.
    intros b Hb'. rewrite Hspr Hsx //; lia. }
  destruct (fill_loop_spec
    (grad_body l (batch_S l (dim0 (input context))) dx (bias_batch_sum_4d dx) (bias_batch_sum_4d pr))
    (grad_slice l context) (dim0 (input context)) (Kernels l) out) as (g & Hrun2 & Hwg & Hdg & Hsg);
    [done|lia..| | |].
  { intros b k Hb' Hk'.
    rewrite /grad_slice length_map length_zip_with /dxhat_slice length_map.
    rewrite !slice_length //; lia. }
  { intros b k t Hb' Hk'. rewrite /grad_body.
    rewrite (lookup_nth (inv_var l) k wzero); [|lia].
    rewrite /= sub4_in_range; [|lia..].
    rewrite /= Hsum //= sub4_in_range; [|lia..].
    rewrite /= Hdot //= Hsx; [|lia..].
    rewrite zip_same_length //.
    rewrite /dxhat_slice length_map !slice_length //; lia. }
  exists g. split_and!; [|done|congruence|done].
  rewrite /backward_batch. cbv zeta.
  by rewrite Hrun1 mbind_Some Hpr mbind_Some Hrun2.
Qed.

(** The gradient computation returns under the same shapes, when the
    gradient vectors of the context have one element per channel. *)
Lemma compute_gradients_spec l context :
  backward_pre l context →
  length (w_grad context) = Kernels l → length (b_grad context) = Kernels l →
  ∃ c1, compute_gradients l context = Some (l, c1) ∧
        input c1 = input context ∧ output c1 = output context ∧
        errors c1 = errors context ∧
        length (w_grad c1) = Kernels l ∧ length (b_grad c1) = Kernels l ∧
        ∀ k, k < Kernels l →
          w_grad c1 !! k =
            Some (batch_acc (λ b, sum (zip_with wmul (slice (input_pre l) b k)
                                                     (slice (errors context) b k)))
                            (dim0 (errors context))) ∧
          b_grad c1 !! k =
            Some (batch_acc (λ b, sum (slice (errors context) b k))
                            (dim0 (errors context))).
Proof.
  intros (Hg & Hiv & Hwp & Hwe & Hk & HB & Hdp) Hwg Hbg.
  destruct (dims_eq _ _ Hdp) as (Hp0 & Hp1 & _).
  destruct (tensor_mul_same_dims (input_pre l) (errors context)) as [pr Hpr];
    [done|].
  destruct (tensor_mul_spec _ _ _ Hpr) as [Hdpr Hspr].
  destruct (dims_eq _ _ Hdpr) as (Hr0 & Hr1 & _).
  eexists. split; [|split_and!].
  - rewrite /compute_gradients Hpr mbind_Some.
    rewrite !vec_assign_same_length;
      [|rewrite bias_batch_sum_4d_length; congruence..].
    by rewrite !mbind_Some.
  - done.
  - done.
  - done.
  - rewrite /= bias_batch_sum_4d_length. congruence.
  - rewrite /= bias_batch_sum_4d_length. congruence.
  - intros k Hk'. rewrite /= !bias_batch_sum_4d_lookup; [|lia..].
    split; [|done]. rewrite Hr0 Hp0. f_equal. apply batch_acc_ext.
    intros b _. by rewrite Hspr.
Qed.

Lemma compute_gradients_Some_layer l context l1 c1 :
  compute_gradients l context = Some (l1, c1) → l1 = l.
Proof.
  rewrite /compute_gradients.
  intros (? & _ & (? & _ & (? & _ & [= <- _])%bind_Some)%bind_Some)%bind_Some.
  done.
Qed.

(** Whatever the shapes, a training pass that returns has left the
    parameters and the dimensions alone, and its cache has the dimensions of
    its input. *)
Lemma inherit_if_null_dims t src : dims (inherit_if_null t src) = dims src.
Proof.
  rewrite /inherit_if_null. case_decide as Hc; [by destruct Hc|].
  apply alloc4_wf.
Qed.

(** Storage of the right dimensions is kept. *)
Lemma inherit_if_null_reuse t src :
  memory t ≠ [] → dims t = dims src → inherit_if_null t src = t.
Proof. intros Hm Hd. by rewrite /inherit_if_null decide_True. Qed.

Lemma norm_body_dims l inp lm iv b k (st st' : tensor4 A * tensor4 A) :
  norm_body l inp lm iv b k st = Some st' → dims st'.1 = dims st.1.
Proof.
  rewrite /norm_body.
  intros (x & _ & (m & _ & (i & _ & (p1 & Hp1 & Hrest)%bind_Some)%bind_Some)
            %bind_Some)%bind_Some.
  apply bind_Some in Hrest as (q & _ & (g & _ & (bt & _ & (o1 & _ & Heq)%bind_Some)
            %bind_Some)%bind_Some).
  injection Heq as <-. simpl. by eapply sub4_assign_dims.
Qed.

Lemma train_normalize_Some l out inp lc o1 :
  train_normalize l out inp = Some (lc, o1) →
  train_frame l lc ∧ dims (input_pre lc) = dims inp.
Proof.
  rewrite /train_normalize. cbv zeta.
  intros (lm & _ & (lv & _ & (iv & _ & (st & Hst & [= <- _])%bind_Some)%bind_Some)
            %bind_Some)%bind_Some.
  split; [done|]. simpl.
  eapply (for_loop2_pres (λ u, dims u.1 = dims inp)); [| |exact Hst].
  - apply inherit_if_null_dims.
  - intros b k u u' Hu Hbody. by rewrite (norm_body_dims _ _ _ _ _ _ _ _ Hbody).
Qed.

Lemma train_Some l out inp l1 o1 :
  train_batch_activate_hidden l out inp = Some (l1, o1) →
  train_frame l l1 ∧ dims (input_pre l1) = dims inp.
Proof.
  intros (lc & Hn & Hu)%train_unfold.
  destruct (train_normalize_Some _ _ _ _ _ Hn) as [Hfr Hd].
  destruct (train_update_running_Some _ _ _ Hu) as [(_ & _ & _ & Hp) Hfr1].
  split; [by eapply train_frame_trans|]. by rewrite Hp.
Qed.

(** Every sequence of calls within the contract runs to its end, whatever
    the batch sizes. *)
Lemma train_many_defined l calls :
  wf_layer l → Forall (call_ok l) calls →
  ∃ l1, train_many l calls = Some l1 ∧ wf_layer l1 ∧ train_frame l l1.
Proof.
  revert l. induction calls as [|[o i] calls IH]; intros l Hwl Hok.
  - exists l. by rewrite /train_frame.
  - apply Forall_cons in Hok as [(Hfit & Hwo & Hdo & HS) Hrest].
    destruct (train_spec l o i) as (l2 & o2 & Hrun & _ & Hfr & Hwl2); [done..|].
    destruct Hfr as (Hg & Hb & Hm & Hbg & Hbb & HK & HW & HH).
    destruct (IH l2 Hwl2) as (l1 & Hmany & Hwl1 & Hfr1).
    { eapply Forall_impl; [exact Hrest|]. intros c.
      rewrite /call_ok /fits /batch_S HK HW HH //. }
    exists l1. split_and!; [by rewrite /= Hrun|done|].
    destruct Hfr1 as (? & ? & ? & ? & ? & ? & ? & ?).
    rewrite /train_frame. split_and!; congruence.
Qed.

End Passes.

(** * The layer in exact arithmetic *)

Section Exact.
Open Scope R_scope.
Implicit Types (l : layer R) (inp out : tensor4 R).

Lemma e_value : (e : R) = 1e-8.
Proof. rewrite /e /=. lra. Qed.

Lemma default_momentum_value : (default_momentum : R) = 0.9.
Proof. rewrite /default_momentum /=. lra. Qed.

Lemma Rsum_app xs ys : Rsum (xs ++ ys) = Rsum xs + Rsum ys.
Proof. induction xs as [|x xs IH]; rewrite /= ?IH; lra. Qed.

Lemma foldl_Rplus a xs : foldl Rplus a xs = a + Rsum xs.
Proof.
  revert a. induction xs as [|x xs IH]; intros a; rewrite /= ?IH; lra.
Qed.

Lemma sum_Rsum (xs : list R) : sum xs = Rsum xs.
Proof. rewrite /sum /= foldl_Rplus. lra. Qed.

Lemma Rsum_upto_S n f : Rsum_upto (S n) f = Rsum_upto n f + f n.
Proof. rewrite /Rsum_upto seq_S map_app Rsum_app /=. lra. Qed.

Lemma Rsum_upto_ext n f g :
  (∀ b, (b < n)%nat → f b = g b) → Rsum_upto n f = Rsum_upto n g.
Proof.
  induction n as [|n IH]; intros Hfg; [done|].
  rewrite !Rsum_upto_S IH; [|intros b ?; apply Hfg; lia].
  rewrite Hfg; [done|lia].
Qed.

Lemma batch_acc_Rsum (f : nat → R) n : batch_acc f n = Rsum_upto n f.
Proof.
  induction n as [|n IH]; [done|]. by rewrite batch_acc_S Rsum_upto_S IH.
Qed.

Lemma batch_S_small l B :
  (Z.of_nat (B * W l * H l) < size_t_modulus)%Z →
  batch_S l B = Z.of_nat (B * W l * H l).
Proof.
  intros Hlt. rewrite /batch_S /size_mul /size_wrap.
  rewrite Z.mul_mod_idemp_l // -!Nat2Z.inj_mul Z.mod_small //. lia.
Qed.

Lemma map_zip_with_map {X Y Z' V : Type} (c : Z' → V) (h : Y → X → Z')
      (g : X → Y) (xs ys : list X) :
  map c (zip_with h (map g xs) ys) = zip_with (λ x y, c (h (g x) y)) xs ys.
Proof.
  revert ys. induction xs as [|x xs IH]; intros [|y ys]; rewrite /= ?IH //.
Qed.

Lemma zip_with_ext_all {X Y Z' : Type} (f g : X → Y → Z') xs ys :
  (∀ x y, f x y = g x y) → zip_with f xs ys = zip_with g xs ys.
Proof.
  intros Hfg. revert ys.
  induction xs as [|x xs IH]; intros [|y ys]; rewrite /= ?IH ?Hfg //.
Qed.

(** The first block in exact arithmetic, channel by channel: the batch
    statistics, the cache and the output. *)
Lemma norm_post_exact l inp l1 o1 :
  fits l inp → (Z.of_nat (batch_count l inp) < size_t_modulus)%Z →
  length (last_var l1) = Kernels l →
  norm_post l inp l1 o1 →
  ∀ k, (k < Kernels l)%nat →
    nth k (last_mean l1) 0 =
      batch_sum inp k (λ x, x) / INR (batch_count l inp) ∧
    nth k (last_var l1) 0 =
      1 / INR (batch_count l inp) *
      batch_sum inp k (λ x, (x - nth k (last_mean l1) 0) *
                            (x - nth k (last_mean l1) 0)) ∧
    nth k (inv_var l1) 0 = 1 / sqrt (nth k (last_var l1) 0 + 1e-8) ∧
    ∀ b, (b < dim0 inp)%nat →
      slice (input_pre l1) b k =
        map (λ x, (x - nth k (last_mean l1) 0) * nth k (inv_var l1) 0)
            (slice inp b k) ∧
      slice o1 b k =
        map (λ p, nth k (gamma l) 0 * p + nth k (beta l) 0)
            (slice (input_pre l1) b k).
Proof.
  intros (Hwi & Hk & Hd2 & Hd3) Hsmall Hlv1
         (Hlm & Hlv & Hiv & Hcache & Hout & Hsl) k Hk'.
  rewrite (batch_S_small l (dim0 inp) Hsmall) in Hlv.
  fold (batch_count l inp) in Hlv. split_and!.
  - rewrite Hlm /bias_batch_mean_4d.
    erewrite nth_lookup_Some;
      [|by rewrite list_lookup_fmap bias_batch_sum_4d_lookup; [|lia]].
    rewrite /= batch_acc_Rsum Hd2 Hd3 -INR_IZR_INZ /batch_sum /batch_count.
    f_equal. apply Rsum_upto_ext. intros b _. by rewrite sum_Rsum map_id.
  - rewrite {1}Hlv.
    erewrite nth_lookup_Some; [|by rewrite list_lookup_fmap lookup_seq_lt].
    rewrite /= batch_acc_Rsum -INR_IZR_INZ /batch_sum /Rdiv.
    rewrite (Rsum_upto_ext _ _
      (λ b, Rsum (map (λ x, (x - nth k (last_mean l1) 0) *
                            (x - nth k (last_mean l1) 0)) (slice inp b k)))).
    + ring.
    + intros b _. by rewrite /sq_dev sum_Rsum.
  - rewrite {1}Hiv.
    erewrite nth_lookup_Some;
      [|by rewrite (lookup_map_nth _ _ _ 0); [|lia]].
    by rewrite e_value.
  - intros b Hb'. destruct (Hsl b k Hb' Hk') as [-> ->]. done.
Qed.

(** The whole training pass in exact arithmetic: what the first block
    computes, and the two running statistics as the code blends them, with
    the quotient [S / (S - 1)] taken in [size_t]. *)
Lemma train_exact l out inp :
  wf_layer l → fits l inp → wf_tensor out → dims out = dims inp →
  (Z.of_nat (batch_count l inp) < size_t_modulus)%Z →
  batch_count l inp ≠ 1%nat →
  ∃ l1 o1,
    train_batch_activate_hidden l out inp = Some (l1, o1) ∧
    train_frame l l1 ∧ wf_layer l1 ∧
    (wf_tensor (input_pre l1) ∧ dims (input_pre l1) = dims inp) ∧
    (wf_tensor o1 ∧ dims o1 = dims inp) ∧
    ∀ k, (k < Kernels l)%nat →
      nth k (last_mean l1) 0 =
        batch_sum inp k (λ x, x) / INR (batch_count l inp) ∧
      nth k (last_var l1) 0 =
        1 / INR (batch_count l inp) *
        batch_sum inp k (λ x, (x - nth k (last_mean l1) 0) *
                              (x - nth k (last_mean l1) 0)) ∧
      nth k (inv_var l1) 0 = 1 / sqrt (nth k (last_var l1) 0 + 1e-8) ∧
      (∀ b, (b < dim0 inp)%nat →
         slice (input_pre l1) b k =
           map (λ x, (x - nth k (last_mean l1) 0) * nth k (inv_var l1) 0)
               (slice inp b k) ∧
         slice o1 b k =
           map (λ p, nth k (gamma l) 0 * p + nth k (beta l) 0)
               (slice (input_pre l1) b k)) ∧
      nth k (mean l1) 0 =
        momentum l * nth k (mean l) 0 +
        (1 - momentum l) * nth k (last_mean l1) 0 ∧
      nth k (var l1) 0 =
        momentum l * nth k (var l) 0 +
        (1 - momentum l) *
        (IZR (Z.of_nat (batch_count l inp) /
              size_sub (Z.of_nat (batch_count l inp)) 1) *
         nth k (last_var l1) 0).
Proof.
  intros Hwl Hfit Hwo Hdo Hsmall Hne.
  pose proof (batch_S_small l (dim0 inp) Hsmall) as HS.
  destruct (train_spec l out inp) as (l1 & o1 & Hrun & Hpost & Hfr & Hwl1);
    [done..|rewrite HS; rewrite /batch_count in Hne; lia|].
  exists l1, o1. do 3 (split; [done|]).
  destruct Hpost as [Hnorm [Hmean Hvar]].
  do 2 (split; [apply Hnorm|]).
  destruct Hwl as (_ & _ & Hm & Hv & _).
  destruct Hwl1 as (_ & _ & _ & _ & Hlm1 & Hlv1 & Hiv1 & _).
  destruct Hfr as (_ & _ & _ & _ & _ & HK1 & _).
  rewrite HS in Hvar. fold (batch_count l inp) in Hvar.
  intros k Hk'.
  destruct (norm_post_exact l inp l1 o1 Hfit Hsmall) with (k := k)
    as (Hf1 & Hf2 & Hf3 & Hf4); [congruence|done|done|].
  do 4 (split; [done|]). split.
  - rewrite Hmean.
    erewrite nth_lookup_Some; [done|].
    rewrite lookup_zip_with /vec_scale.
    rewrite (lookup_map_nth _ (mean l) k 0); [|lia].
    by rewrite (lookup_map_nth _ (last_mean l1) k 0); [|lia].
  - rewrite {1}Hvar.
    erewrite nth_lookup_Some; [done|].
    rewrite lookup_zip_with /vec_scale.
    rewrite (lookup_map_nth _ (var l) k 0); [|lia].
    rewrite (lookup_map_nth _ (map _ (last_var l1)) k 0);
      [|rewrite length_map; lia].
    rewrite /=. do 3 f_equal.
    erewrite nth_lookup_Some; [done|].
    by rewrite (lookup_map_nth _ (last_var l1) k 0); [|lia].
Qed.

End Exact.

(** * The definitions at work *)

(** The scenario of the specification on IEEE binary64: the batch
    statistics are exactly 3 and 1; the running variance is the double next
    to 0.2 that the rounding of [1.0 - 0.9] leads to. *)
Example scenario_binary64 :
  ∃ l1 o1,
    train_batch_activate_hidden (A:=float)
      scenario_layer scenario_output scenario_input = Some (l1, o1) ∧
    last_mean l1 = [3%float] ∧ last_var l1 = [1%float] ∧
    var l1 = [0x1.9999999999998p-3%float].
Proof. eexists _, _. split; [vm_compute; reflexivity|]. by vm_compute. Qed.

(** A batch with a single observation per channel: the first block
    returns, but [S - 1] is zero and the division of line 173 has no
    defined result. *)
Example single_observation_undefined {A : Type} {weight : Weight A} (x : A) :
  is_Some (train_normalize scenario_layer (alloc4 (1, 1, 1, 1))
             (Tensor4 1 1 1 1 [x])) ∧
  train_batch_activate_hidden scenario_layer (alloc4 (1, 1, 1, 1))
    (Tensor4 1 1 1 1 [x]) = None.
Proof. split; [by eexists|reflexivity]. Qed.

(** An input with more samples than the output buffer: the assignment to
    [output(b)(k)] leaves the buffer. *)
Example output_too_small {A : Type} {weight : Weight A} :
  train_batch_activate_hidden scenario_layer scenario_output three_input = None.
Proof. reflexivity. Qed.

(** * Initialization and the frame of the training pass *)

(** Discharges the shape conditions of a pass at a concrete input. *)
Ltac shape := repeat split; first [reflexivity | lia | discriminate].

(** C3. After [init_layer K W H], and before any forward pass, the seven
    per-channel vectors gamma, beta, mean, var, last_mean, last_var and
    inv_var have length exactly [K]; gamma is all one, beta is all zero, and
    mean and var are all zero.  (The layer also records the three
    dimensions.) *)
Theorem init_layer_state {A : Type} {weight : Weight A}
        (K Wd Hd : nat) (l : layer A) :
  (length (gamma (init_layer K Wd Hd l)) = K ∧
   length (beta (init_layer K Wd Hd l)) = K ∧
   length (mean (init_layer K Wd Hd l)) = K ∧
   length (var (init_layer K Wd Hd l)) = K ∧
   length (last_mean (init_layer K Wd Hd l)) = K ∧
   length (last_var (init_layer K Wd Hd l)) = K ∧
   length (inv_var (init_layer K Wd Hd l)) = K) ∧
  gamma (init_layer K Wd Hd l) = replicate K wone ∧
  beta (init_layer K Wd Hd l) = replicate K wzero ∧
  mean (init_layer K Wd Hd l) = replicate K wzero ∧
  var (init_layer K Wd Hd l) = replicate K wzero ∧
  Kernels (init_layer K Wd Hd l) = K ∧
  W (init_layer K Wd Hd l) = Wd ∧
  H (init_layer K Wd Hd l) = Hd.
Proof.
  rewrite /init_layer /dyn_vector /vec_fill /= !length_replicate.
  by split_and!.
Qed.

(** C10. A training forward pass leaves the learnable parameters gamma and
    beta, the momentum and the dimensions Kernels, W and H as they were (and
    the two backups): what it assigns is among mean, var, last_mean,
    last_var, inv_var and input_pre. *)
Theorem train_preserves_parameters {A : Type} {weight : Weight A}
        (l : layer A) (out inp : tensor4 A) (l1 : layer A) (o1 : tensor4 A) :
  train_batch_activate_hidden l out inp = Some (l1, o1) →
  gamma l1 = gamma l ∧ beta l1 = beta l ∧ momentum l1 = momentum l ∧
  Kernels l1 = Kernels l ∧ W l1 = W l ∧ H l1 = H l ∧
  bak_gamma l1 = bak_gamma l ∧ bak_beta l1 = bak_beta l.
Proof.
  intros Hrun. destruct (train_Some _ _ _ _ _ Hrun) as [Hfr _].
  destruct Hfr as (? & ? & ? & ? & ? & ? & ? & ?). by split_and!.
Qed.

Lemma train_preserves_parameters_witness :
  ∃ (l1 : layer float) o1,
    train_batch_activate_hidden scenario_layer scenario_output scenario_input
      = Some (l1, o1) ∧
    gamma l1 = gamma scenario_layer ∧ beta l1 = beta scenario_layer ∧
    momentum l1 = momentum scenario_layer ∧
    Kernels l1 = Kernels scenario_layer ∧ W l1 = W scenario_layer ∧
    H l1 = H scenario_layer ∧
    bak_gamma l1 = bak_gamma scenario_layer ∧
    bak_beta l1 = bak_beta scenario_layer.
Proof.
  eexists _, _. split; [vm_compute; reflexivity|].
  eapply (train_preserves_parameters scenario_layer scenario_output
            scenario_input).
  vm_compute; reflexivity.
Defined.

(** C2. After a training forward pass the cache [input_pre] has the
    dimensions of the input of that pass, [B, K, W, H] with [B] the batch
    size of the most recent call; this holds at the end of every sequence of
    training passes, whatever the batch sizes of the earlier ones, and the
    dimensions of the layer are those it started with. *)
Theorem input_pre_shape_after_training {A : Type} {weight : Weight A}
        (l : layer A) (calls : list (tensor4 A * tensor4 A))
        (out inp : tensor4 A) (l1 : layer A) :
  train_many l (calls ++ [(out, inp)]) = Some l1 →
  dims (input_pre l1) = dims inp ∧
  Kernels l1 = Kernels l ∧ W l1 = W l ∧ H l1 = H l.
Proof.
  revert l. induction calls as [|[o i] calls IH]; intros l Hrun.
  - simpl in Hrun. apply bind_Some in Hrun as ([l2 o2] & Hstep & [= <-]).
    destruct (train_Some _ _ _ _ _ Hstep) as [Hfr Hd].
    destruct Hfr as (_ & _ & _ & _ & _ & ? & ? & ?). by split_and!.
  - simpl in Hrun. apply bind_Some in Hrun as ([l2 o2] & Hstep & Hrest).
    destruct (train_Some _ _ _ _ _ Hstep) as [Hfr _].
    destruct Hfr as (_ & _ & _ & _ & _ & HK & HW & HH).
    destruct (IH l2 Hrest) as (? & ? & ? & ?).
    split_and!; [done|congruence..].
Qed.

Lemma input_pre_shape_after_training_witness :
  ∃ l1 : layer float,
    train_many scenario_layer
      ([(scenario_output, scenario_input)] ++ [(three_output, three_input)])
      = Some l1 ∧
    dims (input_pre l1) = dims three_input ∧
    Kernels l1 = Kernels scenario_layer ∧ W l1 = W scenario_layer ∧
    H l1 = H scenario_layer.
Proof.
  eexists. split; [vm_compute; reflexivity|].
  eapply (input_pre_shape_after_training scenario_layer
            [(scenario_output, scenario_input)] three_output three_input).
  vm_compute; reflexivity.
Defined.

(** * The passes in exact arithmetic *)

Section ExactPasses.
Open Scope R_scope.
Implicit Types (l : layer R) (inp out : tensor4 R).

(** C5. For every input of shape [B, K, W, H], with [S = B * W * H], the
    statements of the training forward pass up to the running statistics
    (lines 143 to 169) compute, for every channel [k]: [last_mean[k]], the
    mean of the input over the batch and spatial axes; [last_var[k]], the
    biased variance [(1/S) * sum (input[b,k] - last_mean[k])^2];
    [inv_var[k] = 1 / sqrt (last_var[k] + 1e-8)]; the cache
    [input_pre[b,k] = (input[b,k] - last_mean[k]) * inv_var[k]]; and the
    output [output[b,k] = gamma[k] * input_pre[b,k] + beta[k]].  The pass
    hands these on as they are: it returns whenever [S] is not 1, and any
    result it returns has these five. *)
Theorem train_forward_statistics l out inp :
  wf_layer l → fits l inp → wf_tensor out → dims out = dims inp →
  (Z.of_nat (batch_count l inp) < size_t_modulus)%Z →
  ∃ lc o1,
    train_normalize l out inp = Some (lc, o1) ∧
    (∀ k, (k < Kernels l)%nat →
       nth k (last_mean lc) 0 =
         batch_sum inp k (λ x, x) / INR (batch_count l inp) ∧
       nth k (last_var lc) 0 =
         1 / INR (batch_count l inp) *
         batch_sum inp k (λ x, (x - nth k (last_mean lc) 0) *
                               (x - nth k (last_mean lc) 0)) ∧
       nth k (inv_var lc) 0 = 1 / sqrt (nth k (last_var lc) 0 + 1e-8) ∧
       ∀ b, (b < dim0 inp)%nat →
         slice (input_pre lc) b k =
           map (λ x, (x - nth k (last_mean lc) 0) * nth k (inv_var lc) 0)
               (slice inp b k) ∧
         slice o1 b k =
           map (λ p, nth k (gamma l) 0 * p + nth k (beta l) 0)
               (slice (input_pre lc) b k)) ∧
    (batch_count l inp ≠ 1%nat →
     ∃ l1, train_batch_activate_hidden l out inp = Some (l1, o1)) ∧
    (∀ l1 o', train_batch_activate_hidden l out inp = Some (l1, o') →
       last_mean l1 = last_mean lc ∧ last_var l1 = last_var lc ∧
       inv_var l1 = inv_var lc ∧ input_pre l1 = input_pre lc ∧ o' = o1).
Proof.
  intros Hwl Hfit Hwo Hdo Hsmall.
  destruct (train_normalize_spec l out inp)
    as (lc & o1 & Hn & Hpost & Hfr & Hwlc & _); [done..|].
  exists lc, o1. split_and!; [done| | |].
  - destruct Hfr as (_ & _ & _ & _ & _ & HK & _).
    destruct Hwlc as (_ & _ & _ & _ & _ & Hlv & _).
    apply (norm_post_exact l inp lc o1); [done|done|congruence|done].
  - intros Hne.
    destruct (train_update_running_spec lc (batch_S l (dim0 inp)))
      as (l1 & Hu & _); [done|apply batch_S_range| |].
    + rewrite batch_S_small //. rewrite /batch_count in Hne. lia.
    + exists l1. apply train_unfold. by exists lc.
  - intros l1 o' (lc' & Hn' & Hu)%train_unfold.
    rewrite Hn in Hn'. injection Hn' as <- <-.
    destruct (train_update_running_Some _ _ _ Hu) as [(? & ? & ? & ?) _].
    by split_and!.
Qed.

Lemma train_forward_statistics_witness :
  ∃ lc o1,
    train_normalize scenario_layer scenario_output scenario_input
      = Some (lc, o1) ∧
    (∀ k, (k < Kernels (scenario_layer (A:=R)))%nat →
       nth k (last_mean lc) 0 =
         batch_sum scenario_input k (λ x, x) /
         INR (batch_count scenario_layer scenario_input) ∧
       nth k (last_var lc) 0 =
         1 / INR (batch_count scenario_layer scenario_input) *
         batch_sum scenario_input k (λ x, (x - nth k (last_mean lc) 0) *
                                          (x - nth k (last_mean lc) 0)) ∧
       nth k (inv_var lc) 0 = 1 / sqrt (nth k (last_var lc) 0 + 1e-8) ∧
       ∀ b, (b < dim0 (scenario_input (A:=R)))%nat →
         slice (input_pre lc) b k =
           map (λ x, (x - nth k (last_mean lc) 0) * nth k (inv_var lc) 0)
               (slice scenario_input b k) ∧
         slice o1 b k =
           map (λ p, nth k (gamma scenario_layer) 0 * p +
                     nth k (beta scenario_layer) 0)
               (slice (input_pre lc) b k)) ∧
    (batch_count scenario_layer scenario_input ≠ 1%nat →
     ∃ l1, train_batch_activate_hidden scenario_layer scenario_output
             scenario_input = Some (l1, o1)) ∧
    (∀ l1 o', train_batch_activate_hidden scenario_layer scenario_output
                scenario_input = Some (l1, o') →
       last_mean l1 = last_mean lc ∧ last_var l1 = last_var lc ∧
       inv_var l1 = inv_var lc ∧ input_pre l1 = input_pre lc ∧ o' = o1).
Proof.
  apply (train_forward_statistics scenario_layer scenario_output
           scenario_input); shape.
Defined.

(** C7. For an input of shape [B, K, W, H] the inference forward pass
    returns [output[b,k] = gamma[k] * (input[b,k] - mean[k]) *
    (1 / sqrt (var[k] + 1e-8)) + beta[k]] for every sample and channel,
    with the running [mean] and [var]; the factor is computed in the call
    from [var], so that a layer with the same gamma, beta, mean and var and
    any other cache ([last_mean], [last_var], [inv_var], [input_pre]) gives
    the same output. *)
Theorem inference_forward_formula l out inp :
  wf_layer l → fits l inp → wf_tensor out → dims out = dims inp →
  ∃ o1,
    test_batch_activate_hidden l out inp = Some (l, o1) ∧
    (∀ b k, (b < dim0 inp)%nat → (k < Kernels l)%nat →
       slice o1 b k =
         map (λ x, nth k (gamma l) 0 * (x - nth k (mean l) 0) *
                   (1 / sqrt (nth k (var l) 0 + 1e-8)) + nth k (beta l) 0)
             (slice inp b k)) ∧
    ∀ lm lv iv pre,
      test_batch_activate_hidden
        (Layer (gamma l) (beta l) (mean l) (var l) lm lv iv pre
               (momentum l) (bak_gamma l) (bak_beta l)
               (Kernels l) (W l) (H l)) out inp
      = Some (Layer (gamma l) (beta l) (mean l) (var l) lm lv iv pre
                    (momentum l) (bak_gamma l) (bak_beta l)
                    (Kernels l) (W l) (H l), o1).
Proof.
  intros (Hg & Hb & Hm & Hv & _) (Hwi & Hk & _) Hwo Hdo.
  destruct (test_spec l out inp) as (o1 & Hrun & [Hw1 Hd1] & Hsl); [done..|].
  exists o1. split_and!; [done| |].
  - intros b k Hb' Hk'. rewrite Hsl // -e_value /=.
    apply map_ext. intros x. ring.
  - intros lm lv iv pre.
    destruct (test_spec (Layer (gamma l) (beta l) (mean l) (var l) lm lv iv pre
                (momentum l) (bak_gamma l) (bak_beta l) (Kernels l) (W l) (H l))
                out inp) as (o2 & Hrun2 & [Hw2 Hd2] & Hsl2); [done..|].
    rewrite Hrun2. do 2 f_equal.
    apply tensor_ext; [done|done|congruence|]. intros b k Hb' Hk'.
    destruct (dims_eq _ _ Hd2) as (Hb0 & Hb1 & _).
    rewrite Hsl2 /=; [|lia..]. rewrite Hsl //; lia.
Qed.

Lemma inference_forward_formula_witness :
  ∃ o1,
    test_batch_activate_hidden scenario_layer scenario_output scenario_input
      = Some (scenario_layer, o1) ∧
    (∀ b k, (b < dim0 (scenario_input (A:=R)))%nat →
            (k < Kernels (scenario_layer (A:=R)))%nat →
       slice o1 b k =
         map (λ x, nth k (gamma scenario_layer) 0 *
                   (x - nth k (mean scenario_layer) 0) *
                   (1 / sqrt (nth k (var scenario_layer) 0 + 1e-8)) +
                   nth k (beta scenario_layer) 0)
             (slice scenario_input b k)) ∧
    ∀ lm lv iv pre,
      test_batch_activate_hidden
        (Layer (gamma scenario_layer) (beta scenario_layer)
               (mean scenario_layer) (var scenario_layer) lm lv iv pre
               (momentum scenario_layer) (bak_gamma scenario_layer)
               (bak_beta scenario_layer) (Kernels scenario_layer)
               (W scenario_layer) (H scenario_layer))
        scenario_output scenario_input
      = Some (Layer (gamma scenario_layer) (beta scenario_layer)
                    (mean scenario_layer) (var scenario_layer) lm lv iv pre
                    (momentum scenario_layer) (bak_gamma scenario_layer)
                    (bak_beta scenario_layer) (Kernels scenario_layer)
                    (W scenario_layer) (H scenario_layer), o1).
Proof.
  apply (inference_forward_formula scenario_layer scenario_output
           scenario_input); shape.
Defined.

(** C9. The inference forward pass hands the layer back with every field
    as it was (gamma, beta, mean, var, last_mean, last_var, inv_var,
    input_pre, momentum); hence a second inference pass on the same input,
    into the buffer just written or into any other buffer of that shape,
    yields the same output. *)
Theorem inference_frame_deterministic l out inp :
  wf_layer l → fits l inp → wf_tensor out → dims out = dims inp →
  ∃ o1,
    test_batch_activate_hidden l out inp = Some (l, o1) ∧
    test_batch_activate_hidden l o1 inp = Some (l, o1) ∧
    ∀ out2, wf_tensor out2 → dims out2 = dims inp →
            test_batch_activate_hidden l out2 inp = Some (l, o1).
Proof.
  intros (Hg & Hb & Hm & Hv & _) (Hwi & Hk & _) Hwo Hdo.
  destruct (test_spec l out inp) as (o1 & Hrun & [Hw1 Hd1] & Hsl); [done..|].
  assert (∀ out2, wf_tensor out2 → dims out2 = dims inp →
                  test_batch_activate_hidden l out2 inp = Some (l, o1)) as Hany.
  { intros out2 Hw2 Hd2.
    destruct (test_spec l out2 inp) as (o2 & Hrun2 & [Hw2' Hd2'] & Hsl2);
      [done..|].
    rewrite Hrun2. do 2 f_equal.
    apply tensor_ext; [done|done|congruence|]. intros b k Hb' Hk'.
    destruct (dims_eq _ _ Hd2') as (Hb0 & Hb1 & _).
    rewrite Hsl2; [|lia..]. rewrite Hsl //; lia. }
  exists o1. split_and!; [done|by apply Hany|done].
Qed.

Lemma inference_frame_deterministic_witness :
  ∃ o1,
    test_batch_activate_hidden scenario_layer scenario_output scenario_input
      = Some (scenario_layer (A:=R), o1) ∧
    test_batch_activate_hidden scenario_layer o1 scenario_input
      = Some (scenario_layer, o1) ∧
    ∀ out2, wf_tensor out2 → dims out2 = dims (scenario_input (A:=R)) →
            test_batch_activate_hidden scenario_layer out2 scenario_input
            = Some (scenario_layer, o1).
Proof.
  apply (inference_frame_deterministic scenario_layer scenario_output
           scenario_input); shape.
Defined.

(** The state a training pass leaves is one the backward pass and the
    gradient computation accept, for a context shaped like the batch. *)
Lemma train_then_backward_pre l out inp context :
  wf_layer l → fits l inp → wf_tensor out → dims out = dims inp →
  (Z.of_nat (batch_count l inp) < size_t_modulus)%Z →
  batch_count l inp ≠ 1%nat →
  dims (input context) = dims inp →
  wf_tensor (errors context) → dims (errors context) = dims inp →
  ∃ l1 o1,
    train_batch_activate_hidden l out inp = Some (l1, o1) ∧
    train_frame l l1 ∧ backward_pre l1 context.
Proof.
  intros Hwl Hfit Hwo Hdo Hsmall Hne Hdi Hwe Hde.
  destruct (train_exact l out inp)
    as (l1 & o1 & Hrun & Hfr & Hwl1 & [Hwp Hdp] & _); [done..|].
  exists l1, o1. split_and!; [done..|].
  destruct Hfit as (_ & Hk & _).
  destruct Hwl1 as (Hg1 & _ & _ & _ & _ & _ & Hiv1 & _).
  destruct Hfr as (_ & _ & _ & _ & _ & HK1 & _).
  destruct (dims_eq _ _ Hdi) as (Hi0 & _).
  destruct (dims_eq _ _ Hde) as (He0 & He1 & _).
  rewrite /backward_pre. split_and!; [done..|congruence|congruence|congruence].
Qed.

(** C6. When the backward pass follows a training forward pass on a batch
    of size [B], with [S = B * W * H], the gradient it writes is, for every
    [b] and [k], [(inv_var[k] / S) * (S * dxhat[b,k] - dxhat_sum[k] -
    input_pre[b,k] * dxhat_dot_xhat[k])], where [dxhat[b,k] = errors[b,k] *
    gamma[k]], [dxhat_sum[k]] is the sum of [dxhat] over the batch and
    spatial axes and [dxhat_dot_xhat[k]] that of [dxhat * input_pre]; the
    [input_pre] and [inv_var] are the fields the forward pass left in the
    layer. *)
Theorem backward_gradient_formula l out inp gout context :
  wf_layer l → fits l inp → wf_tensor out → dims out = dims inp →
  (Z.of_nat (batch_count l inp) < size_t_modulus)%Z →
  batch_count l inp ≠ 1%nat →
  dims (input context) = dims inp →
  wf_tensor (errors context) → dims (errors context) = dims inp →
  wf_tensor gout → dims gout = dims inp →
  ∃ l1 o1 g,
    train_batch_activate_hidden l out inp = Some (l1, o1) ∧
    backward_batch l1 gout context = Some (l1, g) ∧
    ∀ b k, (b < dim0 inp)%nat → (k < Kernels l)%nat →
      slice g b k =
        zip_with
          (λ er p,
             nth k (inv_var l1) 0 / INR (batch_count l inp) *
             (INR (batch_count l inp) * (er * nth k (gamma l1) 0)
              - batch_sum (errors context) k (λ er', er' * nth k (gamma l1) 0)
              - p * batch_sum2 (errors context) (input_pre l1) k
                      (λ er' p', er' * nth k (gamma l1) 0 * p')))
          (slice (errors context) b k) (slice (input_pre l1) b k).
Proof.
  intros Hwl Hfit Hwo Hdo Hsmall Hne Hdi Hwe Hde Hwg Hdg.
  destruct (train_then_backward_pre l out inp context)
    as (l1 & o1 & Hrun & Hfr & Hpre); [done..|].
  destruct (backward_spec l1 gout context) as (g & Hback & _ & Hsl);
    [done|done|congruence|].
  exists l1, o1, g. split_and!; [done..|]. intros b k Hb' Hk'.
  destruct Hfr as (_ & _ & _ & _ & _ & HK1 & HW1 & HH1).
  destruct (dims_eq _ _ Hdi) as (Hi0 & _).
  rewrite Hsl; [|lia..].
  rewrite /grad_slice /dxhat_slice map_zip_with_map.
  assert (dxhat_sum l1 context k =
            batch_sum (errors context) k (λ er', er' * nth k (gamma l1) 0))
    as Hsum.
  { rewrite /dxhat_sum batch_acc_Rsum /batch_sum. apply Rsum_upto_ext.
    intros b' _. by rewrite /dxhat_slice sum_Rsum. }
  assert (dxhat_dot_xhat l1 context k =
            batch_sum2 (errors context) (input_pre l1) k
              (λ er' p', er' * nth k (gamma l1) 0 * p')) as Hdot.
  { rewrite /dxhat_dot_xhat batch_acc_Rsum /batch_sum2. apply Rsum_upto_ext.
    intros b' _. rewrite /dxhat_slice sum_Rsum. f_equal.
    rewrite -(map_id (zip_with _ (map _ _) _)) map_zip_with_map //. }
  assert (batch_S l1 (dim0 (input context)) = Z.of_nat (batch_count l inp))
    as HS.
  { rewrite batch_S_small Hi0 HW1 HH1 //. }
  apply zip_with_ext_all. intros er p.
  rewrite HS Hsum Hdot /= -INR_IZR_INZ /Rdiv. ring.
Qed.

Lemma backward_gradient_formula_witness :
  ∃ l1 o1 g,
    train_batch_activate_hidden scenario_layer scenario_output scenario_input
      = Some (l1, o1) ∧
    backward_batch l1 scenario_output scenario_context = Some (l1, g) ∧
    ∀ b k, (b < dim0 (scenario_input (A:=R)))%nat →
           (k < Kernels (scenario_layer (A:=R)))%nat →
      slice g b k =
        zip_with
          (λ er p,
             nth k (inv_var l1) 0 /
             INR (batch_count scenario_layer scenario_input) *
             (INR (batch_count scenario_layer scenario_input) *
              (er * nth k (gamma l1) 0)
              - batch_sum (errors scenario_context) k
                  (λ er', er' * nth k (gamma l1) 0)
              - p * batch_sum2 (errors scenario_context) (input_pre l1) k
                      (λ er' p', er' * nth k (gamma l1) 0 * p')))
          (slice (errors scenario_context) b k) (slice (input_pre l1) b k).
Proof.
  apply (backward_gradient_formula scenario_layer scenario_output
           scenario_input scenario_output scenario_context); shape.
Defined.

(** C8. When the gradient computation follows a training forward pass, it
    writes into the context, for every channel [k], [w_grad[k]], the sum of
    [input_pre[b,k] * errors[b,k]] over the batch and spatial axes, and
    [b_grad[k]], the sum of [errors[b,k]]; the other fields of the context
    are as before, and the layer comes back as it was: gamma and beta are
    not assigned. *)
Theorem gradients_formula l out inp context :
  wf_layer l → fits l inp → wf_tensor out → dims out = dims inp →
  (Z.of_nat (batch_count l inp) < size_t_modulus)%Z →
  batch_count l inp ≠ 1%nat →
  dims (input context) = dims inp →
  wf_tensor (errors context) → dims (errors context) = dims inp →
  length (w_grad context) = Kernels l → length (b_grad context) = Kernels l →
  ∃ l1 o1 c1,
    train_batch_activate_hidden l out inp = Some (l1, o1) ∧
    compute_gradients l1 context = Some (l1, c1) ∧
    (∀ k, (k < Kernels l)%nat →
       nth k (w_grad c1) 0 =
         batch_sum2 (input_pre l1) (errors context) k (λ p er, p * er) ∧
       nth k (b_grad c1) 0 = batch_sum (errors context) k (λ er, er)) ∧
    input c1 = input context ∧ output c1 = output context ∧
    errors c1 = errors context ∧
    gamma l1 = gamma l ∧ beta l1 = beta l.
Proof.
  intros Hwl Hfit Hwo Hdo Hsmall Hne Hdi Hwe Hde Hlw Hlb.
  destruct (train_then_backward_pre l out inp context)
    as (l1 & o1 & Hrun & Hfr & Hpre); [done..|].
  destruct Hfr as (Hg1 & Hb1 & _ & _ & _ & HK1 & _).
  destruct (compute_gradients_spec l1 context)
    as (c1 & Hcg & Hi & Ho & He & _ & _ & Hk); [done|congruence..|].
  exists l1, o1, c1. split_and!; [done|done| |done..].
  intros k Hk'. rewrite -HK1 in Hk'. destruct (Hk k Hk') as [Hw Hb].
  destruct Hpre as (_ & _ & _ & _ & _ & _ & Hdp).
  destruct (dims_eq _ _ Hdp) as (Hp0 & _).
  rewrite (nth_lookup_Some _ _ _ _ Hw) (nth_lookup_Some _ _ _ _ Hb).
  rewrite !batch_acc_Rsum /batch_sum2 /batch_sum Hp0. split.
  - apply Rsum_upto_ext. intros b _. by rewrite sum_Rsum.
  - apply Rsum_upto_ext. intros b _. by rewrite sum_Rsum map_id.
Qed.

Lemma gradients_formula_witness :
  ∃ l1 o1 c1,
    train_batch_activate_hidden scenario_layer scenario_output scenario_input
      = Some (l1, o1) ∧
    compute_gradients l1 scenario_context = Some (l1, c1) ∧
    (∀ k, (k < Kernels (scenario_layer (A:=R)))%nat →
       nth k (w_grad c1) 0 =
         batch_sum2 (input_pre l1) (errors scenario_context) k
                    (λ p er, p * er) ∧
       nth k (b_grad c1) 0 =
         batch_sum (errors scenario_context) k (λ er, er)) ∧
    input c1 = input scenario_context ∧ output c1 = output scenario_context ∧
    errors c1 = errors scenario_context ∧
    gamma l1 = gamma scenario_layer ∧ beta l1 = beta scenario_layer.
Proof.
  apply (gradients_formula scenario_layer scenario_output scenario_input
           scenario_context); shape.
Defined.

(** ** The running statistics *)

(** From three observations on, the quotient [S / (S - 1)] of two [size_t]
    values is 1. *)
Lemma size_ratio_truncates (n : Z) :
  (3 ≤ n < size_t_modulus)%Z → (n / size_sub n 1)%Z = 1%Z.
Proof.
  rewrite /size_sub /size_wrap /size_t_modulus. intros Hn.
  rewrite Z.mod_small; [|lia].
  symmetry. apply (Z.div_unique n (n - 1) 1 1); lia.
Qed.

(** What the training pass assigns to the running variance when a channel
    has at least three observations: the biased batch variance is blended
    in as it is. *)
Lemma running_variance_update l out inp :
  wf_layer l → fits l inp → wf_tensor out → dims out = dims inp →
  (Z.of_nat (batch_count l inp) < size_t_modulus)%Z →
  (3 ≤ batch_count l inp)%nat →
  ∃ l1 o1,
    train_batch_activate_hidden l out inp = Some (l1, o1) ∧
    ∀ k, (k < Kernels l)%nat →
      nth k (var l1) 0 =
        momentum l * nth k (var l) 0 +
        (1 - momentum l) * nth k (last_var l1) 0.
Proof.
  intros Hwl Hfit Hwo Hdo Hsmall Hge.
  destruct (train_exact l out inp) as (l1 & o1 & Hrun & _ & _ & _ & _ & Hk);
    [done..|lia|].
  exists l1, o1. split; [done|]. intros k Hk'.
  destruct (Hk k Hk') as (_ & _ & _ & _ & _ & ->).
  rewrite size_ratio_truncates; [|lia]. ring.
Qed.

Lemma singleton_eq (v : list R) (x : R) :
  length v = 1%nat → nth 0 v 0 = x → v = [x].
Proof. destruct v as [|y [|z v]]; [done| |done]. by intros _ [= ->]. Qed.

Lemma inv_sqrt_near_one : Rabs (1 / sqrt (1 + 1e-8) - 1) < 1e-8.
Proof.
  pose proof (sqrt_pos (1 + 1e-8)) as Hpos.
  pose proof (sqrt_sqrt (1 + 1e-8)) as Hsq.
  set (r := sqrt (1 + 1e-8)) in *.
  assert (r * r = 1 + 1e-8) as Hrr by (apply Hsq; lra).
  assert (1 <= r <= 1 + 1e-8) as [Hlo Hhi] by (split; nra).
  assert (/ r * r = 1) as Hinv by (apply Rinv_l; lra).
  rewrite /Rdiv Rmult_1_l. apply Rabs_def1; nra.
Qed.

Lemma scenario_layer_fields :
  gamma (scenario_layer (A:=R)) = [1] ∧ beta (scenario_layer (A:=R)) = [0] ∧
  mean (scenario_layer (A:=R)) = [0] ∧ var (scenario_layer (A:=R)) = [0] ∧
  momentum (scenario_layer (A:=R)) = 0.9.
Proof. split_and!; [done..|]. apply default_momentum_value. Qed.

(** C4. In the scenario [K = 1, W = 1, H = 1, B = 2], input
    [[2], [4]], [gamma = 1], [beta = 0], [momentum = 0.9], running
    statistics at zero, one training forward pass gives [last_mean = 3],
    [last_var = 1], [inv_var = 1 / sqrt (1 + 1e-8)], a cache and an output
    of [-inv_var] and [inv_var], which are within [1e-8] of -1 and 1, and
    the running variance [0.9 * 0 + 0.1 * 2 * 1 = 0.2]. *)
Theorem scenario_training_pass :
  ∃ l1 o1,
    train_batch_activate_hidden scenario_layer scenario_output scenario_input
      = Some (l1, o1) ∧
    last_mean l1 = [3] ∧ last_var l1 = [1] ∧
    inv_var l1 = [1 / sqrt (1 + 1e-8)] ∧
    input_pre l1 =
      Tensor4 2 1 1 1 [- (1 / sqrt (1 + 1e-8)); 1 / sqrt (1 + 1e-8)] ∧
    o1 = Tensor4 2 1 1 1 [- (1 / sqrt (1 + 1e-8)); 1 / sqrt (1 + 1e-8)] ∧
    Rabs (- (1 / sqrt (1 + 1e-8)) - (-1)) < 1e-8 ∧
    Rabs (1 / sqrt (1 + 1e-8) - 1) < 1e-8 ∧
    var l1 = [0.2].
Proof.
  destruct (train_exact scenario_layer scenario_output scenario_input)
    as (l1 & o1 & Hrun & Hfr & Hwl1 & [Hwp Hdp] & [Hwo Hdo] & Hk); [shape..|].
  destruct (Hk 0%nat) as (Hm & Hv & Hiv & Hsl & _ & Hvar); [cbn; lia|].
  destruct Hfr as (_ & _ & _ & _ & _ & HK1 & _).
  destruct Hwl1 as (_ & _ & _ & Hlv & Hllm & Hllv & Hliv & _).
  rewrite HK1 in Hlv Hllm Hllv Hliv.
  assert (nth 0 (last_mean l1) 0 = 3) as Hm3.
  { rewrite Hm /batch_sum /Rsum_upto /batch_count /=. lra. }
  assert (nth 0 (last_var l1) 0 = 1) as Hv1.
  { rewrite Hv Hm3 /batch_sum /Rsum_upto /batch_count /=. lra. }
  assert (nth 0 (inv_var l1) 0 = 1 / sqrt (1 + 1e-8)) as Hiv1.
  { by rewrite Hiv Hv1. }
  destruct (Hsl 0%nat) as [Hp0 Ho0]; [cbn; lia|].
  destruct (Hsl 1%nat) as [Hp1 Ho1]; [cbn; lia|].
  rewrite Hm3 Hiv1 in Hp0 Hp1.
  assert (input_pre l1 =
            Tensor4 2 1 1 1 [- (1 / sqrt (1 + 1e-8)); 1 / sqrt (1 + 1e-8)])
    as Hpre.
  { apply tensor_ext; [done|done|done|].
    destruct (dims_eq _ _ Hdp) as (-> & -> & _).
    intros b k Hb' Hk'. simpl in Hb', Hk'. assert (k = 0%nat) as -> by lia.
    destruct b as [|[|b]]; [| |lia].
    - rewrite Hp0.
      change ([(2 - 3) * (1 / sqrt (1 + 1e-8))] = [- (1 / sqrt (1 + 1e-8))]).
      f_equal. lra.
    - rewrite Hp1.
      change ([(4 - 3) * (1 / sqrt (1 + 1e-8))] = [1 / sqrt (1 + 1e-8)]).
      f_equal. lra. }
  exists l1, o1. split; [done|]. split_and!.
  - by apply singleton_eq.
  - by apply singleton_eq.
  - by apply singleton_eq.
  - done.
  - apply tensor_ext; [done|done|done|].
    destruct (dims_eq _ _ Hdo) as (-> & -> & _).
    intros b k Hb' Hk'. simpl in Hb', Hk'. assert (k = 0%nat) as -> by lia.
    destruct b as [|[|b]]; [| |lia].
    + rewrite Ho0 Hpre.
      change ([1 * - (1 / sqrt (1 + 1e-8)) + 0] = [- (1 / sqrt (1 + 1e-8))]).
      f_equal. lra.
    + rewrite Ho1 Hpre.
      change ([1 * (1 / sqrt (1 + 1e-8)) + 0] = [1 / sqrt (1 + 1e-8)]).
      f_equal. lra.
  - replace (- (1 / sqrt (1 + 1e-8)) - -1) with (- (1 / sqrt (1 + 1e-8) - 1))
      by lra.
    rewrite Rabs_Ropp. apply inv_sqrt_near_one.
  - apply inv_sqrt_near_one.
  - apply singleton_eq; [done|]. rewrite Hvar Hv1.
    assert ((Z.of_nat (batch_count scenario_layer scenario_input) /
             size_sub (Z.of_nat (batch_count scenario_layer scenario_input)) 1)%Z
            = 2%Z) as -> by (vm_compute; reflexivity).
    destruct scenario_layer_fields as (_ & _ & _ & -> & ->).
    cbn [nth]. lra.
Qed.

(** C1, at a batch of three samples.  On the layer of the scenario (running
    statistics at zero, [momentum = 0.9]) and the input [[1], [2], [3]],
    where [S = 3], the pass computes [last_mean = 2] and [last_var = 2/3]
    and leaves [mean = (1 - 0.9) * last_mean]; but it leaves
    [var = (1 - 0.9) * last_var], which is [1/15], and not
    [(1 - 0.9) * (S / (S - 1)) * last_var] with the real ratio [3/2], which
    is [1/10]. *)
Theorem running_variance_three_samples :
  ∃ l1 o1,
    train_batch_activate_hidden scenario_layer three_output three_input
      = Some (l1, o1) ∧
    last_mean l1 = [2] ∧ last_var l1 = [2 / 3] ∧
    mean l1 = [(1 - 0.9) * 2] ∧
    var l1 = [(1 - 0.9) * (2 / 3)] ∧
    var l1 ≠ [(1 - 0.9) * (3 / (3 - 1)) * (2 / 3)].
Proof.
  destruct (train_exact scenario_layer three_output three_input)
    as (l1 & o1 & Hrun & Hfr & Hwl1 & _ & _ & Hk); [shape..|].
  destruct (Hk 0%nat) as (Hm & Hv & _ & _ & Hmean & Hvar); [cbn; lia|].
  destruct Hfr as (_ & _ & _ & _ & _ & HK1 & _).
  destruct Hwl1 as (_ & _ & Hlm & Hlv & Hllm & Hllv & _).
  rewrite HK1 in Hlm Hlv Hllm Hllv.
  assert (nth 0 (last_mean l1) 0 = 2) as Hm2.
  { rewrite Hm /batch_sum /Rsum_upto /batch_count /=. lra. }
  assert (nth 0 (last_var l1) 0 = 2 / 3) as Hv2.
  { rewrite Hv Hm2 /batch_sum /Rsum_upto /batch_count /=. lra. }
  assert (var l1 = [(1 - 0.9) * (2 / 3)]) as Hvar1.
  { apply singleton_eq; [done|]. rewrite Hvar Hv2.
    assert ((Z.of_nat (batch_count scenario_layer three_input) /
             size_sub (Z.of_nat (batch_count scenario_layer three_input)) 1)%Z
            = 1%Z) as -> by (vm_compute; reflexivity).
    destruct scenario_layer_fields as (_ & _ & _ & -> & ->).
    cbn [nth]. lra. }
  exists l1, o1. split; [done|]. split_and!.
  - by apply singleton_eq.
  - by apply singleton_eq.
  - apply singleton_eq; [done|]. rewrite Hmean Hm2.
    destruct scenario_layer_fields as (_ & _ & -> & _ & ->).
    cbn [nth]. lra.
  - done.
  - rewrite Hvar1. intros [= Heq]. lra.
Qed.

End ExactPasses.

(** * Further properties, for any element type *)

(** Discharges the contract of a pass at a concrete input. *)
Ltac ready :=
  repeat split; first [reflexivity | lia | discriminate | (vm_compute; lia)].

Lemma init_layer_wf {A : Type} {weight : Weight A} (K Wd Hd : nat)
      (l : layer A) :
  wf_tensor (input_pre l) → wf_layer (init_layer K Wd Hd l).
Proof.
  intros Hwf.
  rewrite /wf_layer /init_layer /dyn_vector /vec_fill /= !length_replicate.
  by split_and!.
Qed.

Lemma layer_eq {A : Type} (l l' : layer A) :
  gamma l = gamma l' → beta l = beta l' → mean l = mean l' → var l = var l' →
  last_mean l = last_mean l' → last_var l = last_var l' →
  inv_var l = inv_var l' → input_pre l = input_pre l' →
  momentum l = momentum l' → bak_gamma l = bak_gamma l' →
  bak_beta l = bak_beta l' → Kernels l = Kernels l' → W l = W l' →
  H l = H l' → l = l'.
Proof. destruct l, l'; simpl; intros; by subst. Qed.

(** What [norm_post] says of the cache and of the output determines
    them. *)
Lemma norm_post_unique {A : Type} {weight : Weight A} (l l' : layer A)
      (inp : tensor4 A) (l1 l1' : layer A) (o1 o1' : tensor4 A) :
  dim1 inp = Kernels l →
  gamma l' = gamma l → beta l' = beta l → Kernels l' = Kernels l →
  W l' = W l → H l' = H l →
  norm_post l inp l1 o1 → norm_post l' inp l1' o1' →
  last_mean l1' = last_mean l1 ∧ last_var l1' = last_var l1 ∧
  inv_var l1' = inv_var l1 ∧ input_pre l1' = input_pre l1 ∧ o1' = o1.
Proof.
  intros Hk Hg Hb HK HW HH (Hlm & Hlv & Hiv & [Hwp Hdp] & [Hwo Hdo] & Hsl)
         (Hlm' & Hlv' & Hiv' & [Hwp' Hdp'] & [Hwo' Hdo'] & Hsl').
  assert (last_mean l1' = last_mean l1) as Elm by congruence.
  assert (last_var l1' = last_var l1) as Elv.
  { by rewrite Hlv' Hlv Elm /batch_S HK HW HH. }
  assert (inv_var l1' = inv_var l1) as Eiv by by rewrite Hiv' Hiv Elv.
  assert (input_pre l1' = input_pre l1) as Epre.
  { apply tensor_ext; [done|done|congruence|]. intros b k Hb' Hk'.
    destruct (dims_eq _ _ Hdp') as (Hd0 & Hd1 & _).
    rewrite Hd0 in Hb'. rewrite Hd1 Hk in Hk'.
    destruct (Hsl' b k) as [-> _]; [done|by rewrite HK|].
    destruct (Hsl b k) as [-> _]; [done..|].
    by rewrite Elm Eiv. }
  split_and!; [done..|].
  apply tensor_ext; [done|done|congruence|]. intros b k Hb' Hk'.
  destruct (dims_eq _ _ Hdo') as (Hd0 & Hd1 & _).
  rewrite Hd0 in Hb'. rewrite Hd1 Hk in Hk'.
  destruct (Hsl' b k) as [_ ->]; [done|by rewrite HK|].
  destruct (Hsl b k) as [_ ->]; [done..|].
  by rewrite Epre Hg Hb.
Qed.

(** X1. The size invariant of the layer: after [init_layer K W H], and
    after every sequence of training passes within the contract, whatever
    their batch sizes, the passes have returned, the seven per-channel
    vectors still have length [K] and the dimensions are [K], [W], [H]. *)
Theorem vector_sizes_invariant {A : Type} {weight : Weight A} 
        (K Wd Hd : nat) (l : layer A)
        (calls : list (tensor4 A * tensor4 A)) :
  wf_tensor (input_pre l) →
  Forall (call_ok (init_layer K Wd Hd l)) calls →
  ∃ l1, train_many (init_layer K Wd Hd l) calls = Some l1 ∧
        (length (gamma l1) = K ∧ length (beta l1) = K ∧
         length (mean l1) = K ∧ length (var l1) = K ∧
         length (last_mean l1) = K ∧ length (last_var l1) = K ∧
         length (inv_var l1) = K) ∧
        Kernels l1 = K ∧ W l1 = Wd ∧ H l1 = Hd.
Proof.
  intros Hwf Hok.
  destruct (train_many_defined (init_layer K Wd Hd l) calls)
    as (l1 & Hrun & Hwl & Hfr); [by apply init_layer_wf|done|].
  destruct Hfr as (_ & _ & _ & _ & _ & HK & HW & HH). simpl in HK, HW, HH.
  destruct Hwl as (? & ? & ? & ? & ? & ? & ? & _).
  exists l1. split_and!; congruence.
Qed.

Lemma vector_sizes_invariant_witness :
  ∃ l1 : layer R,
    train_many (init_layer 1 1 1 new_layer)
      [(scenario_output, scenario_input); (three_output, three_input)]
      = Some l1 ∧
    (length (gamma l1) = 1 ∧ length (beta l1) = 1 ∧
     length (mean l1) = 1 ∧ length (var l1) = 1 ∧
     length (last_mean l1) = 1 ∧ length (last_var l1) = 1 ∧
     length (inv_var l1) = 1) ∧
    Kernels l1 = 1 ∧ W l1 = 1 ∧ H l1 = 1.
Proof.
  apply (vector_sizes_invariant 1 1 1 new_layer
           [(scenario_output, scenario_input); (three_output, three_input)]).
  - reflexivity.
  - repeat (apply Forall_cons_2; [ready|]). apply Forall_nil_2.
Defined.

(** X2. Training and inference agree on the statistics of the batch: the
    inference pass of a layer whose running [mean] and [var] are the
    [last_mean] and [last_var] that a training pass has just computed
    returns, on the same input, the output of that training pass. *)
Theorem inference_reproduces_training {A : Type} {weight : Weight A} 
        (l : layer A) (out inp : tensor4 A) :
  wf_layer l → fits l inp → wf_tensor out → dims out = dims inp →
  batch_S l (dim0 inp) ≠ 1%Z →
  ∃ l1 o1,
    train_batch_activate_hidden l out inp = Some (l1, o1) ∧
    ∀ out2, wf_tensor out2 → dims out2 = dims inp →
      test_batch_activate_hidden (with_batch_statistics l1) out2 inp
      = Some (with_batch_statistics l1, o1).
Proof.
  intros Hwl Hfit Hwo Hdo HS.
  destruct (train_spec l out inp)
    as (l1 & o1 & Hrun & [Hnorm _] & Hfr & Hwl1); [done..|].
  exists l1, o1. split; [done|]. intros out2 Hw2 Hd2.
  destruct Hnorm as (Hlm & Hlv & Hiv & _ & [Hwo1 Hdo1] & Hsl).
  destruct Hfit as (Hwi & Hk & _).
  destruct Hfr as (Hg & Hb & _ & _ & _ & HK & _).
  destruct Hwl1 as (Hg1 & Hb1 & _ & _ & Hlm1 & Hlv1 & _).
  destruct (test_spec (with_batch_statistics l1) out2 inp)
    as (o2 & Hrun2 & [Hwo2 Hdo2] & Hsl2);
    [exact Hg1|exact Hb1|exact Hlm1|exact Hlv1|done|by rewrite /= HK|done|done|].
  rewrite Hrun2. do 2 f_equal.
  apply tensor_ext; [done|done|congruence|]. intros b k Hb' Hk'.
  destruct (dims_eq _ _ Hdo2) as (Hd0 & Hd1 & _).
  rewrite Hd0 in Hb'. rewrite Hd1 Hk in Hk'.
  rewrite Hsl2 /=; [|done|by rewrite HK].
  destruct (Hsl b k) as [Hp ->]; [done..|]. rewrite Hp map_map Hg Hb.
  apply map_ext. intros v. do 3 f_equal.
  rewrite {1}Hiv. symmetry. apply nth_lookup_Some.
  rewrite (lookup_map_nth _ (last_var l1) k wzero) //. lia.
Qed.

Lemma inference_reproduces_training_witness :
  ∃ (l1 : layer R) o1,
    train_batch_activate_hidden scenario_layer scenario_output scenario_input
      = Some (l1, o1) ∧
    ∀ out2, wf_tensor out2 → dims out2 = dims (scenario_input (A:=R)) →
      test_batch_activate_hidden (with_batch_statistics l1) out2 scenario_input
      = Some (with_batch_statistics l1, o1).
Proof.
  apply (inference_reproduces_training scenario_layer scenario_output
           scenario_input); ready.
Defined.

(** X3. The training pass reads nothing of what it caches, nor of the
    output buffer: two layers that differ at most in [last_mean],
    [last_var], [inv_var] and [input_pre], given the same input and any two
    output buffers of its shape, come out of the pass equal, with equal
    outputs. *)
Theorem train_ignores_cache {A : Type} {weight : Weight A} 
        (l l' : layer A) (out out' inp : tensor4 A) :
  wf_layer l → wf_layer l' → same_but_cache l l' → fits l inp →
  wf_tensor out → dims out = dims inp →
  wf_tensor out' → dims out' = dims inp →
  batch_S l (dim0 inp) ≠ 1%Z →
  ∃ l1 o1,
    train_batch_activate_hidden l out inp = Some (l1, o1) ∧
    train_batch_activate_hidden l' out' inp = Some (l1, o1).
Proof.
  intros Hwl Hwl' (Eg & Eb & Em & Ev & Emo & Ebg & Ebb & EK & EW & EH)
         Hfit Hwo Hdo Hwo' Hdo' HS.
  destruct (train_spec l out inp)
    as (l1 & o1 & Hrun & [Hnorm [Hmean Hvar]] & Hfr & _); [done..|].
  destruct (train_spec l' out' inp)
    as (l1' & o1' & Hrun' & [Hnorm' [Hmean' Hvar']] & Hfr' & _); [done| |done..| |].
  { destruct Hfit as (? & ? & ? & ?). rewrite /fits. split_and!; congruence. }
  { by rewrite /batch_S EW EH. }
  exists l1, o1. split; [done|].
  destruct (norm_post_unique l l' inp l1 l1' o1 o1')
    as (Elm & Elv & Eiv & Epre & Eo); [apply Hfit|done..|].
  destruct Hfr as (? & ? & ? & ? & ? & ? & ? & ?).
  destruct Hfr' as (? & ? & ? & ? & ? & ? & ? & ?).
  assert (l1' = l1) as El.
  { apply layer_eq; try congruence.
    by rewrite Hvar' Hvar Emo Ev Elv /batch_S EW EH. }
  by rewrite Hrun' El Eo.
Qed.

Lemma train_ignores_cache_witness :
  ∃ (l1 : layer R) o1,
    train_batch_activate_hidden scenario_layer scenario_output scenario_input
      = Some (l1, o1) ∧
    train_batch_activate_hidden scenario_stale_layer scenario_input
      scenario_input = Some (l1, o1).
Proof.
  apply (train_ignores_cache scenario_layer scenario_stale_layer
           scenario_output scenario_input scenario_input); ready.
Defined.

(** X4. The output of a training pass and what it caches depend on the
    input, on [gamma] and [beta] and on the dimensions only: two layers
    that agree on these, whatever their running statistics, momentum and
    caches, return the same output and leave the same [last_mean],
    [last_var], [inv_var] and [input_pre]. *)
Theorem train_output_ignores_running_statistics
        {A : Type} {weight : Weight A}
        (l l' : layer A) (out out' inp : tensor4 A) :
  wf_layer l → wf_layer l' →
  gamma l' = gamma l → beta l' = beta l →
  Kernels l' = Kernels l → W l' = W l → H l' = H l →
  fits l inp → wf_tensor out → dims out = dims inp →
  wf_tensor out' → dims out' = dims inp →
  batch_S l (dim0 inp) ≠ 1%Z →
  ∃ l1 l1' o1,
    train_batch_activate_hidden l out inp = Some (l1, o1) ∧
    train_batch_activate_hidden l' out' inp = Some (l1', o1) ∧
    same_cache l1 l1'.
Proof.
  intros Hwl Hwl' Eg Eb EK EW EH Hfit Hwo Hdo Hwo' Hdo' HS.
  destruct (train_spec l out inp)
    as (l1 & o1 & Hrun & [Hnorm _] & _); [done..|].
  destruct (train_spec l' out' inp)
    as (l1' & o1' & Hrun' & [Hnorm' _] & _); [done| |done..| |].
  { destruct Hfit as (? & ? & ? & ?). rewrite /fits. split_and!; congruence. }
  { by rewrite /batch_S EW EH. }
  destruct (norm_post_unique l l' inp l1 l1' o1 o1')
    as (Elm & Elv & Eiv & Epre & Eo); [apply Hfit|done..|].
  exists l1, l1', o1. by rewrite Hrun Hrun' Eo.
Qed.

Lemma train_output_ignores_running_statistics_witness :
  ∃ (l1 l1' : layer R) o1,
    train_batch_activate_hidden scenario_layer scenario_output scenario_input
      = Some (l1, o1) ∧
    train_batch_activate_hidden (with_batch_statistics scenario_stale_layer)
      scenario_input scenario_input = Some (l1', o1) ∧
    same_cache l1 l1'.
Proof.
  apply (train_output_ignores_running_statistics scenario_layer
           (with_batch_statistics scenario_stale_layer)
           scenario_output scenario_input scenario_input); ready.
Defined.

(** X5. The inference pass treats every sample on its own: when a view
    [(b, k)] of one batch holds what the view [(b', k)] of another batch
    holds, whatever the two batch sizes and the other samples, the two
    outputs agree on these views. *)
Theorem inference_sample_independent {A : Type} {weight : Weight A}
        (l : layer A) (out inp out' inp' : tensor4 A) :
  wf_layer l → fits l inp → fits l inp' →
  wf_tensor out → dims out = dims inp →
  wf_tensor out' → dims out' = dims inp' →
  ∃ o1 o1',
    test_batch_activate_hidden l out inp = Some (l, o1) ∧
    test_batch_activate_hidden l out' inp' = Some (l, o1') ∧
    ∀ b b' k, b < dim0 inp → b' < dim0 inp' → k < Kernels l →
      slice inp b k = slice inp' b' k → slice o1 b k = slice o1' b' k.
Proof.
  intros (Hg & Hb & Hm & Hv & _) (Hwi & Hk & _) (Hwi' & Hk' & _)
         Hwo Hdo Hwo' Hdo'.
  destruct (test_spec l out inp) as (o1 & Hrun & _ & Hsl); [done..|].
  destruct (test_spec l out' inp') as (o1' & Hrun' & _ & Hsl'); [done..|].
  exists o1, o1'. split_and!; [done..|]. intros b b' k Hb1 Hb2 Hk1 Heq.
  by rewrite Hsl // Hsl' // Heq.
Qed.

Lemma inference_sample_independent_witness :
  ∃ o1 o1',
    test_batch_activate_hidden (scenario_layer (A:=R)) scenario_output
      scenario_input = Some (scenario_layer, o1) ∧
    test_batch_activate_hidden (scenario_layer (A:=R)) single_output
      single_input = Some (scenario_layer, o1') ∧
    ∀ b b' k, b < dim0 (scenario_input (A:=R)) →
              b' < dim0 (single_input (A:=R)) →
              k < Kernels (scenario_layer (A:=R)) →
      slice (scenario_input (A:=R)) b k = slice single_input b' k →
      slice o1 b k = slice o1' b' k.
Proof.
  apply (inference_sample_independent scenario_layer scenario_output
           scenario_input single_output single_input); ready.
Defined.

(** X6. A context built by the constructor of [sgd_context] for the batch
    size of the training pass has the shapes the backward pass and the
    gradient computation need: after the pass both return, the layer is as
    the pass left it, the gradient has the shape of the input and the two
    parameter gradients have one element per channel. *)
Theorem constructed_context_accepted {A : Type} {weight : Weight A}
        (l : layer A) (out inp gout : tensor4 A) :
  wf_layer l → fits l inp → wf_tensor out → dims out = dims inp →
  batch_S l (dim0 inp) ≠ 1%Z →
  wf_tensor gout → dims gout = dims inp →
  ∃ l1 o1 g c1,
    train_batch_activate_hidden l out inp = Some (l1, o1) ∧
    backward_batch l1 gout (new_sgd_context (dim0 inp) l1) = Some (l1, g) ∧
    dims g = dims inp ∧
    compute_gradients l1 (new_sgd_context (dim0 inp) l1) = Some (l1, c1) ∧
    length (w_grad c1) = Kernels l ∧ length (b_grad c1) = Kernels l.
Proof.
  intros Hwl Hfit Hwo Hdo HS Hwg Hdg.
  destruct (train_spec l out inp)
    as (l1 & o1 & Hrun & [Hnorm _] & Hfr & Hwl1); [done..|].
  destruct Hnorm as (_ & _ & _ & [Hwp Hdp] & _).
  destruct Hfr as (_ & _ & _ & _ & _ & HK & HW & HH).
  destruct Hfit as (Hwi & Hk & Hd2 & Hd3).
  destruct Hwl1 as (Hg1 & _ & _ & _ & _ & _ & Hiv1 & _).
  set (context := new_sgd_context (dim0 inp) l1).
  assert (dims (errors context) = dims inp) as Hde.
  { rewrite /context /new_sgd_context /= /dims /= HK HW HH Hk Hd2 Hd3 //. }
  assert (backward_pre l1 context) as Hpre.
  { rewrite /backward_pre. split_and!; [done..| |done|done|congruence].
    apply (alloc4_wf (dim0 inp, Kernels l1, W l1, H l1)). }
  destruct (backward_spec l1 gout context) as (g & Hback & [_ Hdg1] & _);
    [done|done|congruence|].
  destruct (compute_gradients_spec l1 context)
    as (c1 & Hcg & _ & _ & _ & Hlw & Hlb & _);
    [done|by rewrite /= /dyn_vector length_replicate..|].
  exists l1, o1, g, c1. split_and!; [done|done|congruence|done|congruence..].
Qed.

Lemma constructed_context_accepted_witness :
  ∃ (l1 : layer R) o1 g c1,
    train_batch_activate_hidden scenario_layer scenario_output scenario_input
      = Some (l1, o1) ∧
    backward_batch l1 scenario_output
      (new_sgd_context (dim0 (scenario_input (A:=R))) l1) = Some (l1, g) ∧
    dims g = dims (scenario_input (A:=R)) ∧
    compute_gradients l1 (new_sgd_context (dim0 (scenario_input (A:=R))) l1)
      = Some (l1, c1) ∧
    length (w_grad c1) = Kernels (scenario_layer (A:=R)) ∧
    length (b_grad c1) = Kernels (scenario_layer (A:=R)).
Proof.
  apply (constructed_context_accepted scenario_layer scenario_output
           scenario_input scenario_output); ready.
Defined.

(** * Further properties, in exact arithmetic *)

Section ExactSums.
Open Scope R_scope.
Implicit Types (l : layer R) (x y inp out : tensor4 R).

Lemma Rsum_map_affine (a c : R) xs :
  Rsum (map (λ v, a * v + c) xs) = a * Rsum xs + INR (length xs) * c.
Proof.
  induction xs as [|v xs IH]; [rewrite /=; lra|].
  change (a * v + c + Rsum (map (λ v, a * v + c) xs) =
          a * (v + Rsum xs) + INR (S (length xs)) * c).
  rewrite S_INR IH. lra.
Qed.

Lemma Rsum_upto_affine n (f : nat → R) a c :
  Rsum_upto n (λ b, a * f b + c) = a * Rsum_upto n f + INR n * c.
Proof.
  induction n as [|n IH]; [rewrite /Rsum_upto /=; lra|].
  rewrite !Rsum_upto_S IH S_INR. lra.
Qed.

Lemma Rsum_nonneg xs : Forall (λ v, 0 <= v) xs → 0 <= Rsum xs.
Proof. induction 1 as [|v xs Hv _ IH]; rewrite /=; lra. Qed.

Lemma Rsum_upto_nonneg n (f : nat → R) :
  (∀ b, (b < n)%nat → 0 <= f b) → 0 <= Rsum_upto n f.
Proof.
  induction n as [|n IH]; intros Hf; [rewrite /Rsum_upto /=; lra|].
  rewrite Rsum_upto_S.
  assert (0 <= f n) by (apply Hf; lia).
  assert (0 <= Rsum_upto n f) by (apply IH; intros; apply Hf; lia).
  lra.
Qed.

Lemma batch_sum_ext x k (f g : R → R) :
  (∀ v, f v = g v) → batch_sum x k f = batch_sum x k g.
Proof.
  intros Hfg. apply Rsum_upto_ext. intros b _. f_equal.
  apply map_ext. done.
Qed.

Lemma batch_sum_nonneg x k (f : R → R) :
  (∀ v, 0 <= f v) → 0 <= batch_sum x k f.
Proof.
  intros Hf. apply Rsum_upto_nonneg. intros b _. apply Rsum_nonneg.
  apply Forall_fmap, Forall_forall. intros v _. apply Hf.
Qed.

(** The sum over a channel of an affine function of the elements. *)
Lemma batch_sum_affine x k (a c : R) :
  wf_tensor x → (k < dim1 x)%nat →
  batch_sum x k (λ v, a * v + c) =
    a * batch_sum x k (λ v, v) + INR (dim0 x * dim2 x * dim3 x) * c.
Proof.
  intros Hwf Hk. rewrite /batch_sum.
  rewrite (Rsum_upto_ext _ _
    (λ b, a * Rsum (map (λ v, v) (slice x b k)) + INR (dim2 x * dim3 x) * c)).
  - rewrite Rsum_upto_affine -Nat.mul_assoc (mult_INR (dim0 x)). lra.
  - intros b Hb. rewrite Rsum_map_affine map_id slice_length //.
Qed.

Lemma batch_sum_scale x k (f : R → R) (a : R) :
  batch_sum x k (λ v, a * f v) = a * batch_sum x k f.
Proof.
  rewrite /batch_sum.
  rewrite (Rsum_upto_ext _ _ (λ b, a * Rsum (map f (slice x b k)) + 0)).
  - rewrite Rsum_upto_affine. lra.
  - intros b _. rewrite -(map_map f (λ w, a * w)).
    rewrite (map_ext (λ w, a * w) (λ w, a * w + 0)); [|intros; lra].
    rewrite Rsum_map_affine. lra.
Qed.

(** The sum over a channel of a tensor whose views are images of the views
    of another. *)
Lemma batch_sum_map x y k (f g : R → R) :
  dim0 y = dim0 x →
  (∀ b, (b < dim0 x)%nat → slice y b k = map f (slice x b k)) →
  batch_sum y k g = batch_sum x k (λ v, g (f v)).
Proof.
  intros Hd Hsl. rewrite /batch_sum Hd. apply Rsum_upto_ext.
  intros b Hb. by rewrite Hsl // map_map.
Qed.

Lemma inference_factor_bounds (v : R) :
  0 <= v → 0 < inference_factor v <= 10000.
Proof.
  intros Hv. rewrite /inference_factor.
  assert (sqrt (1e-4 * 1e-4) <= sqrt (v + 1e-8)) as Hs.
  { apply sqrt_le_1_alt. lra. }
  rewrite sqrt_square in Hs; [|lra].
  rewrite /Rdiv Rmult_1_l. split.
  - apply Rinv_0_lt_compat. lra.
  - replace 10000 with (/ 1e-4) by lra. apply Rinv_le_contravar; lra.
Qed.

Lemma inference_factor_square (v : R) :
  0 <= v → inference_factor v * inference_factor v = 1 / (v + 1e-8).
Proof.
  intros Hv. rewrite /inference_factor.
  assert (0 < sqrt (v + 1e-8)) as Hs by (apply sqrt_lt_R0; lra).
  assert (sqrt (v + 1e-8) * sqrt (v + 1e-8) = v + 1e-8) as Hq
    by (apply sqrt_sqrt; lra).
  transitivity (1 / (sqrt (v + 1e-8) * sqrt (v + 1e-8)));
    [field; lra|by rewrite Hq].
Qed.

End ExactSums.

Section FurtherExact.
Open Scope R_scope.
Implicit Types (l : layer R) (inp out : tensor4 R).

(** The quotient [S / (S - 1)] in [size_t], for [S] of at least 2. *)
Lemma size_ratio_value (s : nat) :
  (2 ≤ s)%nat → (Z.of_nat s < size_t_modulus)%Z →
  IZR (Z.of_nat s / size_sub (Z.of_nat s) 1) = size_ratio s.
Proof.
  intros Hge Hlt. rewrite /size_ratio. case_decide as Hs.
  - rewrite Hs. by assert ((Z.of_nat 2 / size_sub (Z.of_nat 2) 1)%Z = 2%Z)
      as -> by (vm_compute; reflexivity).
  - rewrite size_ratio_truncates; [done|lia].
Qed.

(** Views that hold the deviations from the mean of a channel, each times
    the same factor, add up to zero over the channel. *)
Lemma centred_views_sum_zero (x p : tensor4 R) k (m c : R) :
  wf_tensor x → (k < dim1 x)%nat → dim0 p = dim0 x →
  (dim0 x * dim2 x * dim3 x ≠ 0)%nat →
  m = batch_sum x k (λ v, v) / INR (dim0 x * dim2 x * dim3 x) →
  (∀ b, (b < dim0 x)%nat →
     slice p b k = map (λ v, (v - m) * c) (slice x b k)) →
  batch_sum p k (λ v, v) = 0.
Proof.
  intros Hwf Hk Hd Hn Hm Hsl.
  rewrite (batch_sum_map x p k (λ v, (v - m) * c) (λ v, v)) //.
  rewrite (batch_sum_ext x k _ (λ v, c * v + - m * c)); [|intros; lra].
  rewrite batch_sum_affine // Hm. field. by apply not_0_INR.
Qed.

(** X7. The batch variance and the factor derived from it are bounded:
    after a training pass, for every channel, [last_var[k]] is not
    negative, and [inv_var[k]] lies above 0 and does not exceed 10^4, the
    value it takes on a channel without variance. *)
Theorem batch_statistics_bounds l out inp :
  train_ready l out inp →
  ∃ l1 o1,
    train_batch_activate_hidden l out inp = Some (l1, o1) ∧
    ∀ k, (k < Kernels l)%nat →
      0 <= nth k (last_var l1) 0 ∧ 0 < nth k (inv_var l1) 0 <= 10000.
Proof.
  intros (Hwl & Hfit & Hwo & Hdo & Hsmall & Hge). simpl in *.
  destruct (train_exact l out inp) as (l1 & o1 & Hrun & _ & _ & _ & _ & Hk);
    [done..|lia|].
  exists l1, o1. split; [done|]. intros k Hk'.
  destruct (Hk k Hk') as (_ & Hv & Hiv & _).
  assert (0 <= nth k (last_var l1) 0) as Hpos.
  { rewrite {1}Hv. apply Rmult_le_pos.
    - apply Rlt_le, Rdiv_lt_0_compat; [lra|]. apply lt_0_INR. lia.
    - apply batch_sum_nonneg. intros v. exact (Rle_0_sqr _). }
  split; [done|]. rewrite Hiv. by apply inference_factor_bounds.
Qed.

Lemma batch_statistics_bounds_witness :
  ∃ l1 o1,
    train_batch_activate_hidden scenario_layer scenario_output scenario_input
      = Some (l1, o1) ∧
    ∀ k, (k < Kernels (scenario_layer (A:=R)))%nat →
      0 <= nth k (last_var l1) 0 ∧ 0 < nth k (inv_var l1) 0 <= 10000.
Proof.
  apply (batch_statistics_bounds scenario_layer scenario_output
           scenario_input); ready.
Defined.

(** X8. The whitened activations of a channel add up to zero: after a
    training pass, the sum of [input_pre[b,k]] over the batch and spatial
    axes is 0 for every channel. *)
Theorem whitened_zero_mean l out inp :
  train_ready l out inp →
  ∃ l1 o1,
    train_batch_activate_hidden l out inp = Some (l1, o1) ∧
    ∀ k, (k < Kernels l)%nat → batch_sum (input_pre l1) k (λ p, p) = 0.
Proof.
  intros (Hwl & Hfit & Hwo & Hdo & Hsmall & Hge). simpl in *.
  destruct (train_exact l out inp)
    as (l1 & o1 & Hrun & _ & _ & [_ Hdp] & _ & Hk); [done..|lia|].
  exists l1, o1. split; [done|]. intros k Hk'.
  destruct (Hk k Hk') as (Hm & _ & _ & Hsl & _).
  destruct Hfit as (Hwi & Hk1 & Hd2 & Hd3).
  destruct (dims_eq _ _ Hdp) as (Hp0 & _).
  rewrite /batch_count -Hd2 -Hd3 in Hm Hge.
  apply (centred_views_sum_zero inp (input_pre l1) k
           (nth k (last_mean l1) 0) (nth k (inv_var l1) 0));
    [done|lia|done|lia|done|].
  intros b Hb. by destruct (Hsl b Hb) as [-> _].
Qed.

Lemma whitened_zero_mean_witness :
  ∃ l1 o1,
    train_batch_activate_hidden scenario_layer scenario_output scenario_input
      = Some (l1, o1) ∧
    ∀ k, (k < Kernels (scenario_layer (A:=R)))%nat →
      batch_sum (input_pre l1) k (λ p, p) = 0.
Proof.
  apply (whitened_zero_mean scenario_layer scenario_output scenario_input);
    ready.
Defined.

(** X9. The output of a training pass has mean [beta[k]] on every channel:
    its sum over the batch and spatial axes is [S * beta[k]], whatever the
    input and [gamma]. *)
Theorem output_mean_is_beta l out inp :
  train_ready l out inp →
  ∃ l1 o1,
    train_batch_activate_hidden l out inp = Some (l1, o1) ∧
    ∀ k, (k < Kernels l)%nat →
      batch_sum o1 k (λ y, y) = INR (batch_count l inp) * nth k (beta l) 0.
Proof.
  intros (Hwl & Hfit & Hwo & Hdo & Hsmall & Hge). simpl in *.
  destruct (train_exact l out inp)
    as (l1 & o1 & Hrun & _ & _ & [Hwp Hdp] & [_ Hdo1] & Hk); [done..|lia|].
  exists l1, o1. split; [done|]. intros k Hk'.
  destruct (Hk k Hk') as (Hm & _ & _ & Hsl & _).
  destruct Hfit as (Hwi & Hk1 & Hd2 & Hd3).
  destruct (dims_eq _ _ Hdp) as (Hp0 & Hp1 & Hp2 & Hp3 & _).
  destruct (dims_eq _ _ Hdo1) as (Ho0 & _).
  rewrite /batch_count -Hd2 -Hd3 in Hm Hge |- *.
  rewrite (batch_sum_map (input_pre l1) o1 k
             (λ p, nth k (gamma l) 0 * p + nth k (beta l) 0) (λ y, y));
    [|congruence|].
  2: { intros b Hb. rewrite Hp0 in Hb. by destruct (Hsl b Hb) as [_ ->]. }
  rewrite batch_sum_affine; [|done|lia].
  rewrite (centred_views_sum_zero inp (input_pre l1) k
             (nth k (last_mean l1) 0) (nth k (inv_var l1) 0));
    [|done|lia|done|lia|done|].
  2: { intros b Hb. by destruct (Hsl b Hb) as [-> _]. }
  rewrite Hp0 Hp2 Hp3. lra.
Qed.

Lemma output_mean_is_beta_witness :
  ∃ l1 o1,
    train_batch_activate_hidden scenario_layer scenario_output scenario_input
      = Some (l1, o1) ∧
    ∀ k, (k < Kernels (scenario_layer (A:=R)))%nat →
      batch_sum o1 k (λ y, y) =
        INR (batch_count scenario_layer scenario_input) *
        nth k (beta scenario_layer) 0.
Proof.
  apply (output_mean_is_beta scenario_layer scenario_output scenario_input);
    ready.
Defined.

(** X10. The whitened activations of a channel have mean square
    [last_var[k] / (last_var[k] + 1e-8)]: after a training pass the sum of
    [input_pre[b,k]^2] over the batch and spatial axes is [S] times this
    ratio, which is below 1 and is 0 for a channel without variance. *)
Theorem whitened_mean_square l out inp :
  train_ready l out inp →
  ∃ l1 o1,
    train_batch_activate_hidden l out inp = Some (l1, o1) ∧
    ∀ k, (k < Kernels l)%nat →
      batch_sum (input_pre l1) k (λ p, p * p) =
        INR (batch_count l inp) *
        (nth k (last_var l1) 0 / (nth k (last_var l1) 0 + 1e-8)).
Proof.
  intros (Hwl & Hfit & Hwo & Hdo & Hsmall & Hge). simpl in *.
  destruct (train_exact l out inp)
    as (l1 & o1 & Hrun & _ & _ & [_ Hdp] & _ & Hk); [done..|lia|].
  exists l1, o1. split; [done|]. intros k Hk'.
  destruct (Hk k Hk') as (_ & Hv & Hiv & Hsl & _).
  destruct (dims_eq _ _ Hdp) as (Hp0 & _).
  assert (0 < INR (batch_count l inp)) as HS by (apply lt_0_INR; lia).
  set (m := nth k (last_mean l1) 0) in *.
  set (v := nth k (last_var l1) 0) in *.
  assert (0 <= v) as Hpos.
  { rewrite Hv. apply Rmult_le_pos.
    - apply Rlt_le, Rdiv_lt_0_compat; [lra|done].
    - apply batch_sum_nonneg. intros w. exact (Rle_0_sqr _). }
  rewrite (batch_sum_map inp (input_pre l1) k
             (λ x, (x - m) * nth k (inv_var l1) 0) (λ p, p * p)); [|done|].
  2: { intros b Hb. by destruct (Hsl b Hb) as [-> _]. }
  rewrite (batch_sum_ext inp k _
             (λ x, (inference_factor v * inference_factor v) *
                   ((x - m) * (x - m)))).
  2: { intros x. rewrite Hiv /inference_factor. ring. }
  rewrite batch_sum_scale inference_factor_square //.
  assert (batch_sum inp k (λ x, (x - m) * (x - m)) =
            INR (batch_count l inp) * v) as ->.
  { rewrite Hv. field. lra. }
  field. lra.
Qed.

Lemma whitened_mean_square_witness :
  ∃ l1 o1,
    train_batch_activate_hidden scenario_layer scenario_output scenario_input
      = Some (l1, o1) ∧
    ∀ k, (k < Kernels (scenario_layer (A:=R)))%nat →
      batch_sum (input_pre l1) k (λ p, p * p) =
        INR (batch_count scenario_layer scenario_input) *
        (nth k (last_var l1) 0 / (nth k (last_var l1) 0 + 1e-8)).
Proof.
  apply (whitened_mean_square scenario_layer scenario_output scenario_input);
    ready.
Defined.

(** X11. The correction [S / (S - 1)] of the running variance is a
    quotient of two [size_t] values: a training pass blends into [var[k]]
    twice the batch variance when a channel has two observations, and the
    batch variance itself from three observations on. *)
Theorem running_variance_factor l out inp :
  train_ready l out inp →
  ∃ l1 o1,
    train_batch_activate_hidden l out inp = Some (l1, o1) ∧
    (∀ k, (k < Kernels l)%nat →
      nth k (var l1) 0 =
        momentum l * nth k (var l) 0 +
        (1 - momentum l) *
        (size_ratio (batch_count l inp) * nth k (last_var l1) 0)) ∧
    size_ratio 2 = 2 ∧ ∀ s, (3 ≤ s)%nat → size_ratio s = 1.
Proof.
  intros (Hwl & Hfit & Hwo & Hdo & Hsmall & Hge). simpl in *.
  destruct (train_exact l out inp)
    as (l1 & o1 & Hrun & _ & _ & _ & _ & Hk); [done..|lia|].
  exists l1, o1. split_and!; [done| |done|].
  - intros k Hk'. destruct (Hk k Hk') as (_ & _ & _ & _ & _ & ->).
    by rewrite size_ratio_value.
  - intros s Hs. rewrite /size_ratio decide_False //. lia.
Qed.

Lemma running_variance_factor_witness :
  ∃ l1 o1,
    train_batch_activate_hidden scenario_layer three_output three_input
      = Some (l1, o1) ∧
    (∀ k, (k < Kernels (scenario_layer (A:=R)))%nat →
      nth k (var l1) 0 =
        momentum scenario_layer * nth k (var scenario_layer) 0 +
        (1 - momentum scenario_layer) *
        (size_ratio (batch_count scenario_layer (three_input (A:=R))) *
         nth k (last_var l1) 0)) ∧
    size_ratio 2 = 2 ∧ ∀ s, (3 ≤ s)%nat → size_ratio s = 1.
Proof.
  apply (running_variance_factor scenario_layer three_output three_input);
    ready.
Defined.

(** ** Sequences of training passes *)

Lemma call_ready_frame l l1 (c : tensor4 R * tensor4 R) :
  train_frame l l1 → call_ready l c → call_ready l1 c.
Proof.
  intros (_ & _ & _ & _ & _ & HK & HW & HH).
  rewrite /call_ready /fits /batch_count HK HW HH //.
Qed.

(** One training pass in terms of the statistics of the batch. *)
Lemma train_step_exact l out inp :
  train_ready l out inp →
  ∃ l1 o1,
    train_batch_activate_hidden l out inp = Some (l1, o1) ∧
    train_frame l l1 ∧ wf_layer l1 ∧
    ∀ k, (k < Kernels l)%nat →
      nth k (last_mean l1) 0 = channel_mean l inp k ∧
      nth k (last_var l1) 0 = channel_var l inp k ∧
      0 <= channel_var l inp k ∧
      nth k (mean l1) 0 =
        momentum l * nth k (mean l) 0 +
        (1 - momentum l) * channel_mean l inp k ∧
      nth k (var l1) 0 =
        momentum l * nth k (var l) 0 +
        (1 - momentum l) *
        (size_ratio (batch_count l inp) * channel_var l inp k).
Proof.
  intros (Hwl & Hfit & Hwo & Hdo & Hsmall & Hge). simpl in *.
  destruct (train_exact l out inp)
    as (l1 & o1 & Hrun & Hfr & Hwl1 & _ & _ & Hk); [done..|lia|].
  exists l1, o1. split_and!; [done..|]. intros k Hk'.
  destruct (Hk k Hk') as (Hm & Hv & _ & _ & Hmean & Hvar).
  rewrite Hm in Hv. fold (channel_mean l inp k) in Hm, Hv.
  fold (channel_var l inp k) in Hv.
  rewrite size_ratio_value // in Hvar. rewrite Hm in Hmean. rewrite Hv in Hvar.
  split_and!; [done..| |done|done].
  rewrite /channel_var. apply Rmult_le_pos.
  - apply Rlt_le, Rdiv_lt_0_compat; [lra|]. apply lt_0_INR. lia.
  - apply batch_sum_nonneg. intros w. exact (Rle_0_sqr _).
Qed.

(** X12. The running variance never becomes negative: from a layer whose
    momentum lies in [0, 1] and whose running variances are not negative,
    as [init_layer] leaves them, every sequence of training passes within
    the contract returns and leaves every [var[k]] non-negative, so that the
    factor [1 / sqrt (var[k] + 1e-8)] of the inference pass lies above 0
    and does not exceed 10^4. *)
Theorem running_variance_nonnegative l
        (calls : list (tensor4 R * tensor4 R)) :
  wf_layer l → 0 <= momentum l <= 1 →
  (∀ k, (k < Kernels l)%nat → 0 <= nth k (var l) 0) →
  Forall (call_ready l) calls →
  ∃ l1,
    train_many l calls = Some l1 ∧
    ∀ k, (k < Kernels l)%nat →
      0 <= nth k (var l1) 0 ∧
      0 < inference_factor (nth k (var l1) 0) <= 10000.
Proof.
  revert l. induction calls as [|[o i] calls IH]; intros l Hwl Hmo Hvar Hok.
  - exists l. split; [done|]. intros k Hk.
    split; [by apply Hvar|by apply inference_factor_bounds, Hvar].
  - apply Forall_cons in Hok as [Hc Hrest].
    destruct (train_step_exact l o i) as (l2 & o2 & Hrun & Hfr & Hwl2 & Hk);
      [done|].
    pose proof Hfr as (_ & _ & Hmo2 & _ & _ & HK2 & _).
    destruct (IH l2) as (l1 & Hmany & Hl1).
    + done.
    + by rewrite Hmo2.
    + rewrite HK2. intros k Hk'.
      destruct (Hk k Hk') as (_ & _ & Hpos & _ & ->).
      assert (0 <= size_ratio (batch_count l i)).
      { rewrite /size_ratio. case_decide; lra. }
      pose proof (Hvar k Hk'). apply Rplus_le_le_0_compat.
      * apply Rmult_le_pos; lra.
      * apply Rmult_le_pos; [lra|]. by apply Rmult_le_pos.
    + eapply Forall_impl; [exact Hrest|]. intros c. by apply call_ready_frame.
    + exists l1. rewrite /= Hrun /=. split; [done|]. by rewrite -HK2.
Qed.

Lemma running_variance_nonnegative_witness :
  ∃ l1,
    train_many scenario_layer
      [(scenario_output, scenario_input); (three_output, three_input)]
      = Some l1 ∧
    ∀ k, (k < Kernels (scenario_layer (A:=R)))%nat →
      0 <= nth k (var l1) 0 ∧
      0 < inference_factor (nth k (var l1) 0) <= 10000.
Proof.
  apply (running_variance_nonnegative scenario_layer
           [(scenario_output, scenario_input); (three_output, three_input)]).
  - ready.
  - simpl. lra.
  - intros [|k] Hk; simpl in *; [lra|lia].
  - repeat (apply Forall_cons_2; [ready|]). apply Forall_nil_2.
Defined.

(** X13. Training again and again on one batch drives the running
    statistics to the statistics of the batch at the rate of the momentum:
    after [n] passes the distance of [mean[k]] to the mean of the batch,
    and that of [var[k]] to its biased variance times the quotient
    [S / (S - 1)] of [size_t], are [momentum ^ n] times what they were. *)
Theorem repeated_training_converges l out inp (n : nat) :
  train_ready l out inp →
  ∃ ln,
    train_many l (replicate n (out, inp)) = Some ln ∧
    ∀ k, (k < Kernels l)%nat →
      nth k (mean ln) 0 - channel_mean l inp k =
        momentum l ^ n * (nth k (mean l) 0 - channel_mean l inp k) ∧
      nth k (var ln) 0 - size_ratio (batch_count l inp) * channel_var l inp k =
        momentum l ^ n *
        (nth k (var l) 0 - size_ratio (batch_count l inp) * channel_var l inp k).
Proof.
  revert l. induction n as [|n IH]; intros l Hready.
  - exists l. split; [done|]. intros k _. rewrite /=. lra.
  - destruct (train_step_exact l out inp)
      as (l2 & o2 & Hrun & Hfr & Hwl2 & Hk); [done|].
    pose proof Hfr as (_ & _ & Hmo2 & _ & _ & HK2 & HW2 & HH2).
    destruct Hready as [Hwl Hc].
    destruct (IH l2) as (ln & Hmany & Hln).
    { split; [done|]. by apply (call_ready_frame l). }
    exists ln. rewrite /= Hrun /=. split; [done|]. intros k Hk'.
    destruct (Hk k Hk') as (_ & _ & _ & Hmean & Hvar).
    destruct (Hln k) as [Hm Hv]; [by rewrite HK2|].
    assert (channel_mean l2 inp k = channel_mean l inp k) as Ecm.
    { by rewrite /channel_mean /batch_count HW2 HH2. }
    assert (channel_var l2 inp k = channel_var l inp k) as Ecv.
    { by rewrite /channel_var Ecm /batch_count HW2 HH2. }
    assert (batch_count l2 inp = batch_count l inp) as Ebc.
    { by rewrite /batch_count HW2 HH2. }
    rewrite Ecm Hmo2 Hmean in Hm. rewrite Ecv Ebc Hmo2 Hvar in Hv.
    rewrite Hm Hv. split; ring.
Qed.

Lemma repeated_training_converges_witness :
  ∃ ln,
    train_many scenario_layer (replicate 3 (scenario_output, scenario_input))
      = Some ln ∧
    ∀ k, (k < Kernels (scenario_layer (A:=R)))%nat →
      nth k (mean ln) 0 - channel_mean scenario_layer scenario_input k =
        momentum scenario_layer ^ 3 *
        (nth k (mean scenario_layer) 0 -
         channel_mean scenario_layer scenario_input k) ∧
      nth k (var ln) 0 -
      size_ratio (batch_count scenario_layer (scenario_input (A:=R))) *
      channel_var scenario_layer scenario_input k =
        momentum scenario_layer ^ 3 *
        (nth k (var scenario_layer) 0 -
         size_ratio (batch_count scenario_layer (scenario_input (A:=R))) *
         channel_var scenario_layer scenario_input k).
Proof.
  apply (repeated_training_converges scenario_layer scenario_output
           scenario_input 3); ready.
Defined.

(** ** Particular inputs *)

Lemma Rsum_replicate (n : nat) (c : R) : Rsum (replicate n c) = INR n * c.
Proof.
  induction n as [|n IH]; [rewrite /=; lra|].
  change (c + Rsum (replicate n c) = INR (S n) * c). rewrite S_INR IH. lra.
Qed.

Lemma map_replicate {X Y : Type} (f : X → Y) (n : nat) (c : X) :
  map f (replicate n c) = replicate n (f c).
Proof. induction n as [|n IH]; rewrite /= ?IH //. Qed.

(** The sum over a channel whose elements are all [c]. *)
Lemma batch_sum_constant (x : tensor4 R) k (f : R → R) (c : R) (n : nat) :
  (∀ b, (b < dim0 x)%nat → slice x b k = replicate n c) →
  batch_sum x k f = INR (dim0 x * n) * f c.
Proof.
  intros Hsl. rewrite /batch_sum.
  rewrite (Rsum_upto_ext _ _ (λ b, 0 * 0 + INR n * f c)).
  - rewrite Rsum_upto_affine mult_INR. lra.
  - intros b Hb. rewrite Hsl // map_replicate Rsum_replicate. lra.
Qed.

Lemma inference_factor_zero : inference_factor 0 = 10000.
Proof.
  rewrite /inference_factor.
  assert (sqrt (0 + 1e-8) = 1e-4) as ->; [|lra].
  rewrite -(sqrt_square 1e-4); [|lra]. f_equal. lra.
Qed.

(** X14. A channel without variance: when every element of channel [k] of
    the batch is [c], the training pass leaves [last_mean[k] = c],
    [last_var[k] = 0] and [inv_var[k] = 10^4], caches zeros for the channel
    and writes [beta[k]] to every element of the channel of the output. *)
Theorem constant_channel l out inp (k : nat) (c : R) :
  train_ready l out inp → (k < Kernels l)%nat →
  (∀ b, (b < dim0 inp)%nat → slice inp b k = replicate (W l * H l) c) →
  ∃ l1 o1,
    train_batch_activate_hidden l out inp = Some (l1, o1) ∧
    nth k (last_mean l1) 0 = c ∧ nth k (last_var l1) 0 = 0 ∧
    nth k (inv_var l1) 0 = 10000 ∧
    ∀ b, (b < dim0 inp)%nat →
      slice (input_pre l1) b k = replicate (W l * H l) 0 ∧
      slice o1 b k = replicate (W l * H l) (nth k (beta l) 0).
Proof.
  intros (Hwl & Hfit & Hwo & Hdo & Hsmall & Hge) Hk' Hconst. simpl in *.
  destruct (train_exact l out inp)
    as (l1 & o1 & Hrun & _ & _ & _ & _ & Hk); [done..|lia|].
  exists l1, o1. split; [done|].
  destruct (Hk k Hk') as (Hm & Hv & Hiv & Hsl & _).
  assert (0 < INR (batch_count l inp)) as HS by (apply lt_0_INR; lia).
  assert (batch_count l inp = (dim0 inp * (W l * H l))%nat) as Hbc
    by (rewrite /batch_count; lia).
  rewrite (batch_sum_constant inp k _ c (W l * H l)) // -Hbc in Hm.
  assert (nth k (last_mean l1) 0 = c) as Em by (rewrite Hm; field; lra).
  rewrite (batch_sum_constant inp k _ c (W l * H l)) // -Hbc Em in Hv.
  assert (nth k (last_var l1) 0 = 0) as Ev by (rewrite Hv; field; lra).
  rewrite Ev in Hiv. fold (inference_factor 0) in Hiv.
  rewrite inference_factor_zero in Hiv.
  split_and!; [done..|]. intros b Hb.
  destruct (Hsl b Hb) as [Hp Ho]. rewrite Ho Hp Hconst // !map_replicate.
  rewrite Em. split; f_equal; lra.
Qed.

Lemma constant_channel_witness :
  ∃ l1 o1,
    train_batch_activate_hidden scenario_layer three_output constant_input
      = Some (l1, o1) ∧
    nth 0 (last_mean l1) 0 = 7 ∧ nth 0 (last_var l1) 0 = 0 ∧
    nth 0 (inv_var l1) 0 = 10000 ∧
    ∀ b, (b < dim0 (constant_input (A:=R)))%nat →
      slice (input_pre l1) b 0 =
        replicate (W (scenario_layer (A:=R)) * H (scenario_layer (A:=R))) 0 ∧
      slice o1 b 0 =
        replicate (W (scenario_layer (A:=R)) * H (scenario_layer (A:=R)))
                  (nth 0 (beta scenario_layer) 0).
Proof.
  apply (constant_channel scenario_layer three_output constant_input 0 7).
  - ready.
  - simpl. lia.
  - intros [|[|[|b]]] Hb; [reflexivity..|simpl in Hb; lia].
Defined.

(** X15. The inference pass can be undone: on a channel whose [gamma[k]]
    is not 0 and whose running variance is not negative, the input is
    recovered from the output as
    [(output[b,k] - beta[k]) / gamma[k] * sqrt (var[k] + 1e-8) + mean[k]]. *)
Theorem inference_invertible l out inp :
  wf_layer l → fits l inp → wf_tensor out → dims out = dims inp →
  ∃ o1,
    test_batch_activate_hidden l out inp = Some (l, o1) ∧
    ∀ b k, (b < dim0 inp)%nat → (k < Kernels l)%nat →
      nth k (gamma l) 0 ≠ 0 → 0 <= nth k (var l) 0 →
      map (λ y, (y - nth k (beta l) 0) / nth k (gamma l) 0 *
                sqrt (nth k (var l) 0 + 1e-8) + nth k (mean l) 0)
          (slice o1 b k) = slice inp b k.
Proof.
  intros (Hg & Hb & Hm & Hv & _) (Hwi & Hk & _) Hwo Hdo.
  destruct (test_spec l out inp) as (o1 & Hrun & _ & Hsl); [done..|].
  exists o1. split; [done|]. intros b k Hb' Hk' Hgam Hvar.
  rewrite Hsl // map_map -{2}(map_id (slice inp b k)).
  apply map_ext. intros v. rewrite e_value /=.
  assert (0 < sqrt (nth k (var l) 0 + 1e-8)) by (apply sqrt_lt_R0; lra).
  field. split; lra.
Qed.

Lemma inference_invertible_witness :
  ∃ o1,
    test_batch_activate_hidden (scenario_layer (A:=R)) scenario_output
      scenario_input = Some (scenario_layer, o1) ∧
    ∀ b k, (b < dim0 (scenario_input (A:=R)))%nat →
           (k < Kernels (scenario_layer (A:=R)))%nat →
      nth k (gamma scenario_layer) 0 ≠ 0 →
      0 <= nth k (var scenario_layer) 0 →
      map (λ y, (y - nth k (beta scenario_layer) 0) /
                nth k (gamma scenario_layer) 0 *
                sqrt (nth k (var scenario_layer) 0 + 1e-8) +
                nth k (mean scenario_layer) 0)
          (slice o1 b k) = slice scenario_input b k.
Proof.
  apply (inference_invertible scenario_layer scenario_output scenario_input);
    ready.
Defined.

End FurtherExact.

(** * Further properties: the edge of the contract and shifted inputs *)

(** X16. One observation per channel is outside the contract of the
    training pass: when [B * W * H] is 1 the statistics, the cache and the
    output are computed, and the quotient [S / (S - 1)] of line 173 then
    divides by zero in [size_t], so that the pass has no result, whatever
    the values of the input and the state of the layer. *)
Theorem single_observation_divides_by_zero {A : Type} {weight : Weight A}
        (l : layer A) (out inp : tensor4 A) :
  wf_layer l → fits l inp → wf_tensor out → dims out = dims inp →
  batch_S l (dim0 inp) = 1%Z →
  is_Some (train_normalize l out inp) ∧
  train_batch_activate_hidden l out inp = None.
Proof.
  intros Hwl Hfit Hwo Hdo HS.
  destruct (train_normalize_spec l out inp) as (lc & o1 & Hn & _); [done..|].
  split; [by rewrite Hn|].
  rewrite /train_batch_activate_hidden Hn /= HS /train_update_running.
  destruct (zip_same _ _ _) as [me|]; [|done]. rewrite /=.
  destruct (vec_assign _ _) as [m1|]; [|done]. done.
Qed.

Lemma single_observation_divides_by_zero_witness :
  is_Some (train_normalize (scenario_layer (A:=R)) single_output single_input) ∧
  train_batch_activate_hidden (scenario_layer (A:=R)) single_output
    single_input = None.
Proof.
  apply (single_observation_divides_by_zero scenario_layer single_output
           single_input); ready.
Defined.

Section Shifted.
Open Scope R_scope.
Implicit Types (l : layer R) (inp out : tensor4 R).

Lemma tensor_map_wf {X : Type} (f : X → X) (t : tensor4 X) :
  wf_tensor t → wf_tensor (tensor_map f t).
Proof. rewrite /wf_tensor /= length_map //. Qed.

Lemma slice_tensor_map {X : Type} (f : X → X) (t : tensor4 X) b k :
  slice (tensor_map f t) b k = map f (slice t b k).
Proof.
  rewrite /slice /tensor_map /slice_off /slice_len /=.
  by rewrite List.skipn_map List.firstn_map.
Qed.

(** The statistics of a channel of a batch to which [c] has been added:
    the mean moves by [c], the squared deviations stay. *)
Lemma shifted_channel_sums inp k (c m : R) (n : nat) :
  wf_tensor inp → (k < dim1 inp)%nat →
  n = (dim0 inp * dim2 inp * dim3 inp)%nat → (0 < n)%nat →
  batch_sum (tensor_map (λ v, v + c) inp) k (λ v, v) / INR n =
    batch_sum inp k (λ v, v) / INR n + c ∧
  batch_sum (tensor_map (λ v, v + c) inp) k
            (λ v, (v - (m + c)) * (v - (m + c))) =
    batch_sum inp k (λ v, (v - m) * (v - m)).
Proof.
  intros Hwf Hk -> Hn. split.
  - rewrite (batch_sum_map inp (tensor_map (λ v, v + c) inp) k
               (λ v, v + c) (λ v, v)); [|done|].
    2: { intros b _. apply slice_tensor_map. }
    rewrite (batch_sum_ext inp k _ (λ v, 1 * v + c)); [|intros; lra].
    rewrite batch_sum_affine //. field. apply not_0_INR. lia.
  - rewrite (batch_sum_map inp (tensor_map (λ v, v + c) inp) k
               (λ v, v + c) (λ v, (v - (m + c)) * (v - (m + c)))); [|done|].
    2: { intros b _. apply slice_tensor_map. }
    apply batch_sum_ext. intros v. ring.
Qed.

(** X17. The training pass does not see a constant added to its input:
    on the batch with [c] added to every element it returns the same
    output and caches the same [last_var], [inv_var] and [input_pre];
    only [last_mean] differs, by [c] on every channel. *)
Theorem train_shift_invariant l out inp (c : R) :
  train_ready l out inp →
  ∃ l1 l1' o1,
    train_batch_activate_hidden l out inp = Some (l1, o1) ∧
    train_batch_activate_hidden l out (tensor_map (λ v, v + c) inp)
      = Some (l1', o1) ∧
    last_var l1' = last_var l1 ∧ inv_var l1' = inv_var l1 ∧
    input_pre l1' = input_pre l1 ∧
    ∀ k, (k < Kernels l)%nat →
      nth k (last_mean l1') 0 = nth k (last_mean l1) 0 + c.
Proof.
  intros (Hwl & Hfit & Hwo & Hdo & Hsmall & Hge). simpl in *.
  set (inp' := tensor_map (λ v, v + c) inp).
  pose proof Hfit as (Hwi & Hk1 & Hd2 & Hd3).
  destruct (train_exact l out inp)
    as (l1 & o1 & Hrun & Hfr & Hwl1 & [Hwp Hdp] & [Hwo1 Hdo1] & Hk);
    [done..|lia|].
  destruct (train_exact l out inp')
    as (l1' & o1' & Hrun' & Hfr' & Hwl1' & [Hwp' Hdp'] & [Hwo1' Hdo1'] & Hk');
    [done|by split; [apply tensor_map_wf|]|done|done|done| |].
  { change (batch_count l inp') with (batch_count l inp). lia. }
  change (batch_count l inp') with (batch_count l inp) in Hk'.
  change (dims inp') with (dims inp) in Hdp', Hdo1'.
  change (dim0 inp') with (dim0 inp) in Hk'.
  assert (∀ k, (k < Kernels l)%nat →
            nth k (last_mean l1') 0 = nth k (last_mean l1) 0 + c ∧
            nth k (last_var l1') 0 = nth k (last_var l1) 0 ∧
            nth k (inv_var l1') 0 = nth k (inv_var l1) 0) as Hstat.
  { intros k Hk0.
    destruct (Hk k Hk0) as (Hm & Hv & Hiv & _).
    destruct (Hk' k Hk0) as (Hm' & Hv' & Hiv' & _).
    destruct (shifted_channel_sums inp k c (nth k (last_mean l1) 0)
                (batch_count l inp)) as [Es Eq];
      [done|lia|by rewrite /batch_count Hd2 Hd3|lia|].
    assert (nth k (last_mean l1') 0 = nth k (last_mean l1) 0 + c) as Em.
    { by rewrite Hm' Hm Es. }
    assert (nth k (last_var l1') 0 = nth k (last_var l1) 0) as Ev.
    { by rewrite Hv' Hv Em Eq. }
    split_and!; [done..|]. by rewrite Hiv' Hiv Ev. }
  destruct Hfr as (_ & _ & _ & _ & _ & HK1 & _).
  destruct Hfr' as (_ & _ & _ & _ & _ & HK1' & _).
  destruct Hwl1 as (_ & _ & _ & _ & _ & Hlv1 & Hiv1 & _).
  destruct Hwl1' as (_ & _ & _ & _ & _ & Hlv1' & Hiv1' & _).
  destruct (dims_eq _ _ Hdp) as (Hp0 & Hp1 & _).
  destruct (dims_eq _ _ Hdo1) as (Ho0 & Ho1 & _).
  assert (input_pre l1' = input_pre l1) as Epre.
  { apply tensor_ext; [done|done|congruence|]. intros b k Hb Hk0.
    destruct (dims_eq _ _ Hdp') as (Hq0 & Hq1 & _).
    rewrite Hq0 in Hb. rewrite Hq1 Hk1 in Hk0.
    destruct (Hk k Hk0) as (_ & _ & _ & Hsl & _).
    destruct (Hk' k Hk0) as (_ & _ & _ & Hsl' & _).
    destruct (Hsl b Hb) as [-> _]. destruct (Hsl' b Hb) as [-> _].
    destruct (Hstat k Hk0) as (-> & _ & ->).
    rewrite slice_tensor_map map_map. apply map_ext. intros v. ring. }
  assert (o1' = o1) as Eo.
  { apply tensor_ext; [done|done|congruence|]. intros b k Hb Hk0.
    destruct (dims_eq _ _ Hdo1') as (Hq0 & Hq1 & _).
    rewrite Hq0 in Hb. rewrite Hq1 Hk1 in Hk0.
    destruct (Hk k Hk0) as (_ & _ & _ & Hsl & _).
    destruct (Hk' k Hk0) as (_ & _ & _ & Hsl' & _).
    destruct (Hsl b Hb) as [_ ->]. destruct (Hsl' b Hb) as [_ ->].
    by rewrite Epre. }
  exists l1, l1', o1. rewrite Hrun Hrun' Eo. split_and!; [done|done| | |done|].
  - apply (nth_ext _ _ 0 0); [congruence|]. intros k Hk0.
    apply Hstat. congruence.
  - apply (nth_ext _ _ 0 0); [congruence|]. intros k Hk0.
    apply Hstat. congruence.
  - intros k Hk0. by apply Hstat.
Qed.

Lemma train_shift_invariant_witness :
  ∃ l1 l1' o1,
    train_batch_activate_hidden scenario_layer scenario_output scenario_input
      = Some (l1, o1) ∧
    train_batch_activate_hidden scenario_layer scenario_output
      (tensor_map (λ v, v + 5) scenario_input) = Some (l1', o1) ∧
    last_var l1' = last_var l1 ∧ inv_var l1' = inv_var l1 ∧
    input_pre l1' = input_pre l1 ∧
    ∀ k, (k < Kernels (scenario_layer (A:=R)))%nat →
      nth k (last_mean l1') 0 = nth k (last_mean l1) 0 + 5.
Proof.
  apply (train_shift_invariant scenario_layer scenario_output scenario_input 5);
    ready.
Defined.

End Shifted.

(** * Further properties: the backward pass and the gradients *)

Section BackwardExact.
Open Scope R_scope.
Implicit Types (l : layer R) (inp out : tensor4 R) (context : sgd_context R).

Lemma Rsum_map_scale (a : R) xs : Rsum (map (Rmult a) xs) = a * Rsum xs.
Proof.
  rewrite (map_ext (Rmult a) (λ v, a * v + 0)); [|intros; lra].
  rewrite Rsum_map_affine. lra.
Qed.

Lemma Rsum_zip_with_lin (a b c : R) ds ps :
  length ds = length ps →
  Rsum (zip_with (λ d p, a * d + b * p + c) ds ps) =
    a * Rsum ds + b * Rsum ps + INR (length ds) * c.
Proof.
  revert ps. induction ds as [|d ds IH]; intros [|p ps] Hlen;
    try discriminate; [rewrite /=; lra|].
  change (a * d + b * p + c + Rsum (zip_with (λ d p, a * d + b * p + c) ds ps) =
          a * (d + Rsum ds) + b * (p + Rsum ps) + INR (S (length ds)) * c).
  rewrite S_INR IH; [|by injection Hlen]. lra.
Qed.

Lemma Rsum_upto_lin2 n (f g : nat → R) (a b c : R) :
  Rsum_upto n (λ i, a * f i + b * g i + c) =
    a * Rsum_upto n f + b * Rsum_upto n g + INR n * c.
Proof.
  induction n as [|n IH]; [rewrite /Rsum_upto /=; lra|].
  rewrite !Rsum_upto_S IH S_INR. lra.
Qed.

(** The sum of the views of a tensor over the batch, as [batch_sum] has
    it. *)
Lemma batch_sum_id (x : tensor4 R) k :
  batch_sum x k (λ v, v) = Rsum_upto (dim0 x) (λ b, Rsum (slice x b k)).
Proof. rewrite /batch_sum. apply Rsum_upto_ext. intros b _. by rewrite map_id. Qed.

(** What a training pass caches: whitened activations of the shape of the
    input that add up to zero on every channel. *)
Lemma train_cache_exact l out inp :
  train_ready l out inp →
  ∃ l1 o1,
    train_batch_activate_hidden l out inp = Some (l1, o1) ∧
    train_frame l l1 ∧ wf_layer l1 ∧
    (wf_tensor (input_pre l1) ∧ dims (input_pre l1) = dims inp) ∧
    ∀ k, (k < Kernels l)%nat → batch_sum (input_pre l1) k (λ p, p) = 0.
Proof.
  intros (Hwl & Hfit & Hwo & Hdo & Hsmall & Hge). simpl in *.
  destruct (train_exact l out inp)
    as (l1 & o1 & Hrun & Hfr & Hwl1 & [Hwp Hdp] & _ & Hk); [done..|lia|].
  exists l1, o1. split_and!; [done..|]. intros k Hk'.
  destruct (Hk k Hk') as (Hm & _ & _ & Hsl & _).
  destruct Hfit as (Hwi & Hk1 & Hd2 & Hd3).
  destruct (dims_eq _ _ Hdp) as (Hp0 & _).
  rewrite /batch_count -Hd2 -Hd3 in Hm Hge.
  apply (centred_views_sum_zero inp (input_pre l1) k
           (nth k (last_mean l1) 0) (nth k (inv_var l1) 0));
    [done|lia|done|lia|done|].
  intros b Hb. by destruct (Hsl b Hb) as [-> _].
Qed.

(** A training pass followed by the backward pass, with what the first
    leaves and the second writes. *)
Lemma train_then_backward l out inp gout context :
  train_ready l out inp →
  dims (input context) = dims inp →
  wf_tensor (errors context) → dims (errors context) = dims inp →
  wf_tensor gout → dims gout = dims inp →
  ∃ l1 o1 g,
    train_batch_activate_hidden l out inp = Some (l1, o1) ∧
    backward_batch l1 gout context = Some (l1, g) ∧
    train_frame l l1 ∧ backward_pre l1 context ∧
    (wf_tensor g ∧ dims g = dims inp) ∧
    (∀ k, (k < Kernels l)%nat → batch_sum (input_pre l1) k (λ p, p) = 0) ∧
    ∀ b k, (b < dim0 inp)%nat → (k < Kernels l)%nat →
      slice g b k = grad_slice l1 context b k.
Proof.
  intros Hready Hdi Hwe Hde Hwg Hdg.
  destruct (train_cache_exact l out inp)
    as (l1' & o1' & Hrun' & _ & _ & _ & Hzero); [done|].
  destruct Hready as (Hwl & Hfit & Hwo & Hdo & Hsmall & Hge). simpl in *.
  destruct (train_then_backward_pre l out inp context)
    as (l1 & o1 & Hrun & Hfr & Hpre); try done; [lia|].
  rewrite Hrun in Hrun'. injection Hrun' as <- <-.
  destruct (backward_spec l1 gout context) as (g & Hback & [Hwg1 Hdg1] & Hsl);
    [done|done|congruence|].
  exists l1, o1, g. split_and!; [done..|congruence|done|].
  destruct Hfr as (_ & _ & _ & _ & _ & HK1 & _).
  destruct (dims_eq _ _ Hdi) as (Hi0 & _).
  intros b k Hb Hk. apply Hsl; lia.
Qed.

(** X18. The gradient that the backward pass writes after a training pass
    adds up to zero on every channel, whatever the errors: the sum of
    [output[b,k]] over the batch and spatial axes is 0. *)
Theorem backward_gradient_zero_sum l out inp gout context :
  train_ready l out inp →
  dims (input context) = dims inp →
  wf_tensor (errors context) → dims (errors context) = dims inp →
  wf_tensor gout → dims gout = dims inp →
  ∃ l1 o1 g,
    train_batch_activate_hidden l out inp = Some (l1, o1) ∧
    backward_batch l1 gout context = Some (l1, g) ∧
    ∀ k, (k < Kernels l)%nat → batch_sum g k (λ v, v) = 0.
Proof.
  intros Hready Hdi Hwe Hde Hwg Hdg.
  destruct (train_then_backward l out inp gout context)
    as (l1 & o1 & g & Hrun & Hback & Hfr & Hpre & [Hwg1 Hdg1] & Hzero & Hsl);
    [done..|].
  exists l1, o1, g. split_and!; [done..|]. intros k Hk.
  destruct Hready as (Hwl & (Hwi & Hk1 & Hd2 & Hd3) & Hwo & Hdo & Hsmall & Hge).
  simpl in *.
  destruct Hpre as (Hg & Hiv & Hwp & _ & He1 & HB & Hdp).
  destruct Hfr as (_ & _ & _ & _ & _ & HK1 & HW1 & HH1).
  destruct (dims_eq _ _ Hdg1) as (Hg0 & _).
  destruct (dims_eq _ _ Hde) as (He0 & _ & _ & _ & HeL).
  destruct (dims_eq _ _ Hdp) as (Hp0 & Hp1 & _ & _ & HpL).
  destruct (dims_eq _ _ Hdi) as (Hi0 & _).
  assert (IZR (batch_S l1 (dim0 (input context))) =
            INR (dim0 inp) * INR (slice_len inp)) as HS.
  { rewrite batch_S_small Hi0 HW1 HH1 //.
    rewrite -INR_IZR_INZ -mult_INR /slice_len Hd2 Hd3. f_equal. lia. }
  rewrite batch_sum_id Hg0.
  set (s := IZR (batch_S l1 (dim0 (input context)))) in *.
  set (D := dxhat_sum l1 context k).
  set (Q := dxhat_dot_xhat l1 context k).
  set (c1 := 1 / s * nth k (inv_var l1) 0).
  rewrite (Rsum_upto_ext _ _
    (λ b, (c1 * s) * Rsum (dxhat_slice l1 context b k) +
          (- c1 * Q) * Rsum (slice (input_pre l1) b k) +
          (- c1 * INR (slice_len inp) * D))).
  2: { intros b Hb. rewrite Hsl // /grad_slice.
       fold D Q. cbn [wmul wsub wdiv wone of_size wzero Weight_R].
       fold s c1. rewrite Rsum_map_scale.
       rewrite (zip_with_ext_all _ (λ d p, s * d + (- Q) * p + (- D)));
         [|intros; ring].
       rewrite Rsum_zip_with_lin.
       - rewrite /dxhat_slice length_map slice_length; [|done|lia..].
         rewrite HeL. ring.
       - rewrite /dxhat_slice length_map !slice_length; try done; lia. }
  rewrite Rsum_upto_lin2.
  assert (Rsum_upto (dim0 inp) (λ i, Rsum (dxhat_slice l1 context i k)) = D)
    as ->.
  { rewrite /D /dxhat_sum batch_acc_Rsum He0. apply Rsum_upto_ext.
    intros b _. by rewrite sum_Rsum. }
  assert (Rsum_upto (dim0 inp) (λ i, Rsum (slice (input_pre l1) i k)) = 0)
    as ->.
  { rewrite -(Hzero k Hk) batch_sum_id. congruence. }
  rewrite HS. ring.
Qed.

Lemma backward_gradient_zero_sum_witness :
  ∃ l1 o1 g,
    train_batch_activate_hidden scenario_layer scenario_output scenario_input
      = Some (l1, o1) ∧
    backward_batch l1 scenario_output scenario_error_context = Some (l1, g) ∧
    ∀ k, (k < Kernels (scenario_layer (A:=R)))%nat →
      batch_sum g k (λ v, v) = 0.
Proof.
  apply (backward_gradient_zero_sum scenario_layer scenario_output
           scenario_input scenario_output scenario_error_context); ready.
Defined.

Lemma zip_with_map_l {X Y Z' V : Type} (f : Y → Z' → V) (g : X → Y)
      (xs : list X) (ys : list Z') :
  zip_with f (map g xs) ys = zip_with (λ x y, f (g x) y) xs ys.
Proof.
  revert ys. induction xs as [|x xs IH]; intros [|y ys]; rewrite /= ?IH //.
Qed.

Lemma zip_with_map_r {X Y Z' V : Type} (f : Y → Z' → V) (g : X → Z')
      (ys : list Y) (xs : list X) :
  zip_with f ys (map g xs) = zip_with (λ y x, f y (g x)) ys xs.
Proof.
  revert xs. induction ys as [|y ys IH]; intros [|x xs]; rewrite /= ?IH //.
Qed.

(** The sum of products when a constant is added to one factor. *)
Lemma Rsum_zip_with_offset (a c : R) ers ps :
  length ers = length ps →
  Rsum (zip_with (λ er p, (er + c) * a * p) ers ps) =
    Rsum (zip_with (λ er p, er * a * p) ers ps) + c * a * Rsum ps.
Proof.
  revert ps. induction ers as [|er ers IH]; intros [|p ps] Hlen;
    try discriminate; [rewrite /=; lra|].
  change ((er + c) * a * p + Rsum (zip_with (λ er p, (er + c) * a * p) ers ps) =
          er * a * p + Rsum (zip_with (λ er p, er * a * p) ers ps) +
          c * a * (p + Rsum ps)).
  rewrite IH; [|by injection Hlen]. lra.
Qed.

(** The sums of the backward pass when [c] is added to every error: the
    first moves by [S * c * gamma[k]], the second, taken against whitened
    activations that add up to zero, stays. *)
Lemma dxhat_sums_offset l context k (c : R) :
  wf_tensor (input_pre l) → wf_tensor (errors context) →
  dims (input_pre l) = dims (errors context) →
  (k < dim1 (errors context))%nat →
  batch_sum (input_pre l) k (λ p, p) = 0 →
  dxhat_sum l (map_errors (λ v, v + c) context) k =
    dxhat_sum l context k +
    INR (dim0 (errors context) * slice_len (errors context)) *
    (c * nth k (gamma l) 0) ∧
  dxhat_dot_xhat l (map_errors (λ v, v + c) context) k =
    dxhat_dot_xhat l context k.
Proof.
  intros Hwp Hwe Hdp Hk Hzero.
  destruct (dims_eq _ _ Hdp) as (Hp0 & Hp1 & _ & _ & HpL).
  set (gm := nth k (gamma l) 0).
  rewrite /dxhat_sum /dxhat_dot_xhat /dxhat_slice !batch_acc_Rsum.
  change (errors (map_errors (λ v, v + c) context))
    with (tensor_map (λ v, v + c) (errors context)).
  change (dim0 (tensor_map (λ v, v + c) (errors context)))
    with (dim0 (errors context)).
  cbn [wmul wzero Weight_R]. fold gm. split.
  - rewrite (Rsum_upto_ext _ _
      (λ b, 1 * Rsum (map (λ v, v * gm) (slice (errors context) b k)) +
            INR (slice_len (errors context)) * (c * gm))).
    + rewrite Rsum_upto_affine mult_INR.
      rewrite (Rsum_upto_ext _ (λ b, Rsum (map (λ v, v * gm)
                                             (slice (errors context) b k)))
                 (λ b, sum (map (λ v, v * gm) (slice (errors context) b k)))).
      * lra.
      * intros b _. by rewrite sum_Rsum.
    + intros b Hb. rewrite sum_Rsum slice_tensor_map map_map.
      rewrite (map_ext (λ v, (v + c) * gm) (λ v, gm * v + c * gm));
        [|intros; lra].
      rewrite (map_ext (λ v, v * gm) (λ v, gm * v + 0)); [|intros; lra].
      rewrite !Rsum_map_affine slice_length //. lra.
  - rewrite (Rsum_upto_ext _ _
      (λ b, 1 * sum (zip_with Rmult (map (λ v, v * gm)
                                        (slice (errors context) b k))
                              (slice (input_pre l) b k)) +
            (c * gm) * Rsum (slice (input_pre l) b k) + 0)).
    + rewrite Rsum_upto_lin2 -Hp0 -batch_sum_id Hzero. lra.
    + intros b Hb. rewrite !sum_Rsum slice_tensor_map map_map !zip_with_map_l.
      rewrite Rsum_zip_with_offset; [lra|].
      rewrite !slice_length //; lia.
Qed.

(** X19. The backward pass does not see a constant added to the errors:
    after a training pass, the gradient it writes for the errors with [c]
    added to every element is the gradient it writes for the errors
    themselves. *)
Theorem backward_ignores_error_offset l out inp gout context (c : R) :
  train_ready l out inp →
  dims (input context) = dims inp →
  wf_tensor (errors context) → dims (errors context) = dims inp →
  wf_tensor gout → dims gout = dims inp →
  ∃ l1 o1 g,
    train_batch_activate_hidden l out inp = Some (l1, o1) ∧
    backward_batch l1 gout context = Some (l1, g) ∧
    backward_batch l1 gout (map_errors (λ v, v + c) context) = Some (l1, g).
Proof.
  intros Hready Hdi Hwe Hde Hwg Hdg.
  destruct (train_then_backward l out inp gout context)
    as (l1 & o1 & g & Hrun & Hback & Hfr & Hpre & [Hwg1 Hdg1] & Hzero & Hsl);
    [done..|].
  destruct (train_then_backward l out inp gout
              (map_errors (λ v, v + c) context))
    as (l1' & o1' & g' & Hrun' & Hback' & _ & _ & [Hwg1' Hdg1'] & _ & Hsl');
    [done|done|by apply tensor_map_wf|done..|].
  rewrite Hrun in Hrun'. injection Hrun' as <- <-.
  exists l1, o1, g. split_and!; [done..|]. rewrite Hback'. do 2 f_equal.
  apply tensor_ext; [done|done|congruence|]. intros b k Hb Hk.
  destruct Hready as (Hwl & (Hwi & Hk1 & Hd2 & Hd3) & Hwo & Hdo & Hsmall & Hge).
  simpl in *.
  destruct Hpre as (Hg & Hiv & Hwp & _ & He1 & HB & Hdp).
  destruct Hfr as (_ & _ & _ & _ & _ & HK1 & HW1 & HH1).
  destruct (dims_eq _ _ Hdg1') as (Hg0 & Hg1 & _).
  destruct (dims_eq _ _ Hde) as (He0 & He1' & _ & _ & HeL).
  destruct (dims_eq _ _ Hdi) as (Hi0 & _).
  rewrite Hg0 in Hb. rewrite Hg1 Hk1 in Hk.
  rewrite Hsl' // Hsl //.
  destruct (dxhat_sums_offset l1 context k c) as [ED EQ];
    [done|done|done|lia|by apply Hzero|].
  assert (IZR (batch_S l1 (dim0 (input context))) =
            INR (dim0 (errors context) * slice_len (errors context))) as HS.
  { rewrite batch_S_small Hi0 HW1 HH1 //.
    rewrite -INR_IZR_INZ He0 HeL /slice_len Hd2 Hd3. f_equal. lia. }
  rewrite /grad_slice ED EQ /dxhat_slice.
  change (errors (map_errors (λ v, v + c) context))
    with (tensor_map (λ v, v + c) (errors context)).
  change (input (map_errors (λ v, v + c) context)) with (input context).
  rewrite slice_tensor_map map_map !zip_with_map_l.
  f_equal. apply zip_with_ext_all. intros er p.
  cbn [wmul wsub wdiv wone of_size wzero Weight_R]. rewrite HS. ring.
Qed.

Lemma backward_ignores_error_offset_witness :
  ∃ l1 o1 g,
    train_batch_activate_hidden scenario_layer scenario_output scenario_input
      = Some (l1, o1) ∧
    backward_batch l1 scenario_output scenario_error_context = Some (l1, g) ∧
    backward_batch l1 scenario_output
      (map_errors (λ v, v + 5) scenario_error_context) = Some (l1, g).
Proof.
  apply (backward_ignores_error_offset scenario_layer scenario_output
           scenario_input scenario_output scenario_error_context 5); ready.
Defined.

Lemma Rsum_zip_with_offset_r (c : R) ps ers :
  length ps = length ers →
  Rsum (zip_with (λ p er, p * (er + c)) ps ers) =
    Rsum (zip_with Rmult ps ers) + c * Rsum ps.
Proof.
  revert ers. induction ps as [|p ps IH]; intros [|er ers] Hlen;
    try discriminate; [rewrite /=; lra|].
  change (p * (er + c) + Rsum (zip_with (λ p er, p * (er + c)) ps ers) =
          p * er + Rsum (zip_with Rmult ps ers) + c * (p + Rsum ps)).
  rewrite IH; [|by injection Hlen]. lra.
Qed.

(** X20. A constant added to the errors does not reach the gradient of
    [gamma]: after a training pass, [compute_gradients] on the errors with
    [c] added to every element writes the same [w_grad], and a [b_grad]
    that is larger by [S * c] on every channel. *)
Theorem gradients_under_error_offset l out inp context (c : R) :
  train_ready l out inp →
  dims (input context) = dims inp →
  wf_tensor (errors context) → dims (errors context) = dims inp →
  length (w_grad context) = Kernels l → length (b_grad context) = Kernels l →
  ∃ l1 o1 c1 c1',
    train_batch_activate_hidden l out inp = Some (l1, o1) ∧
    compute_gradients l1 context = Some (l1, c1) ∧
    compute_gradients l1 (map_errors (λ v, v + c) context) = Some (l1, c1') ∧
    w_grad c1' = w_grad c1 ∧
    ∀ k, (k < Kernels l)%nat →
      nth k (b_grad c1') 0 = nth k (b_grad c1) 0 + INR (batch_count l inp) * c.
Proof.
  intros Hready Hdi Hwe Hde Hlw Hlb.
  destruct (train_cache_exact l out inp)
    as (l1 & o1 & Hrun & Hfr & _ & _ & Hzero); [done|].
  destruct Hready as (Hwl & Hfit & Hwo & Hdo & Hsmall & Hge). simpl in *.
  destruct (train_then_backward_pre l out inp context)
    as (l1' & o1' & Hrun' & _ & Hpre); try done; [lia|].
  rewrite Hrun in Hrun'. injection Hrun' as <- <-.
  destruct (train_then_backward_pre l out inp
              (map_errors (λ v, v + c) context))
    as (l1' & o1' & Hrun' & _ & Hpre'); try done; [lia|by apply tensor_map_wf|].
  rewrite Hrun in Hrun'. injection Hrun' as <- <-.
  destruct Hfr as (_ & _ & _ & _ & _ & HK1 & HW1 & HH1).
  destruct (compute_gradients_spec l1 context)
    as (c1 & Hcg & _ & _ & _ & Hlw1 & Hlb1 & Hk); [done|congruence..|].
  destruct (compute_gradients_spec l1 (map_errors (λ v, v + c) context))
    as (c1' & Hcg' & _ & _ & _ & Hlw1' & Hlb1' & Hk'); [done|simpl; congruence..|].
  exists l1, o1, c1, c1'. split_and!; [done..| |].
  - apply (nth_ext _ _ 0 0); [congruence|]. intros k Hk0.
    rewrite Hlw1' in Hk0.
    destruct (Hk k Hk0) as [Hw _]. destruct (Hk' k Hk0) as [Hw' _].
    rewrite (nth_lookup_Some _ _ _ _ Hw) (nth_lookup_Some _ _ _ _ Hw').
    destruct Hpre as (_ & _ & Hwp & _ & He1 & _ & Hdp).
    destruct (dims_eq _ _ Hdp) as (Hp0 & Hp1 & _ & _ & HpL).
    change (errors (map_errors (λ v, v + c) context))
      with (tensor_map (λ v, v + c) (errors context)).
    change (dim0 (tensor_map (λ v, v + c) (errors context)))
      with (dim0 (errors context)).
    rewrite !batch_acc_Rsum.
    rewrite (Rsum_upto_ext _ _
      (λ b, 1 * sum (zip_with wmul (slice (input_pre l1) b k)
                                   (slice (errors context) b k)) +
            c * Rsum (slice (input_pre l1) b k) + 0)).
    + rewrite Rsum_upto_lin2 -Hp0 -batch_sum_id Hzero; [|lia]. lra.
    + intros b Hb. rewrite !sum_Rsum slice_tensor_map zip_with_map_r.
      rewrite Rsum_zip_with_offset_r; [cbn [wmul Weight_R]; lra|].
      rewrite !slice_length //; lia.
  - intros k Hk0. rewrite -HK1 in Hk0.
    destruct (Hk k Hk0) as [_ Hb]. destruct (Hk' k Hk0) as [_ Hb'].
    rewrite (nth_lookup_Some _ _ _ _ Hb) (nth_lookup_Some _ _ _ _ Hb').
    destruct Hpre as (_ & _ & _ & _ & He1 & _ & _).
    destruct Hfit as (Hwi & Hk1 & Hd2 & Hd3).
    destruct (dims_eq _ _ Hde) as (He0 & _ & _ & _ & HeL).
    change (errors (map_errors (λ v, v + c) context))
      with (tensor_map (λ v, v + c) (errors context)).
    change (dim0 (tensor_map (λ v, v + c) (errors context)))
      with (dim0 (errors context)).
    rewrite !batch_acc_Rsum.
    rewrite (Rsum_upto_ext _ _
      (λ b, 1 * sum (slice (errors context) b k) +
            INR (slice_len (errors context)) * c)).
    + rewrite Rsum_upto_affine He0 HeL /batch_count /slice_len Hd2 Hd3.
      rewrite -Nat.mul_assoc !mult_INR. ring.
    + intros b Hb0. rewrite !sum_Rsum slice_tensor_map.
      rewrite (map_ext (λ v, v + c) (λ v, 1 * v + c)); [|intros; lra].
      rewrite Rsum_map_affine slice_length //; lia.
Qed.

Lemma gradients_under_error_offset_witness :
  ∃ l1 o1 c1 c1',
    train_batch_activate_hidden scenario_layer scenario_output scenario_input
      = Some (l1, o1) ∧
    compute_gradients l1 scenario_error_context = Some (l1, c1) ∧
    compute_gradients l1 (map_errors (λ v, v + 5) scenario_error_context)
      = Some (l1, c1') ∧
    w_grad c1' = w_grad c1 ∧
    ∀ k, (k < Kernels (scenario_layer (A:=R)))%nat →
      nth k (b_grad c1') 0 =
        nth k (b_grad c1) 0 +
        INR (batch_count scenario_layer (scenario_input (A:=R))) * 5.
Proof.
  apply (gradients_under_error_offset scenario_layer scenario_output
           scenario_input scenario_error_context 5); ready.
Defined.

End BackwardExact.

(** * Further properties: the sizes the layer reports *)

(** X21. The sizes the layer reports are those of its data, as long as
    they are representable in [size_t]: [parameters] counts the elements
    of [gamma], [beta], [mean] and [var]; [output_size] is [input_size];
    and a batch of the shape of the layer holds [B * input_size]
    elements. *)
Theorem sizes_consistent {A : Type} {weight : Weight A}
        (l : layer A) (inp : tensor4 A) :
  wf_layer l → fits l inp →
  (4 * Z.of_nat (Kernels l) < size_t_modulus)%Z →
  (Z.of_nat (Kernels l * W l * H l) < size_t_modulus)%Z →
  parameters l =
    Z.of_nat (length (gamma l) + length (beta l) +
              length (mean l) + length (var l)) ∧
  output_size l = input_size l ∧
  Z.of_nat (length (memory inp)) = (Z.of_nat (dim0 inp) * input_size l)%Z.
Proof.
  intros (Hg & Hb & Hm & Hv & _) (Hwi & Hk & Hd2 & Hd3) Hp Hs.
  split_and!.
  - rewrite Hg Hb Hm Hv /parameters /size_mul /size_wrap Z.mod_small; lia.
  - done.
  - rewrite Hwi Hk Hd2 Hd3 /input_size /size_mul /size_wrap.
    rewrite Z.mul_mod_idemp_l // -!Nat2Z.inj_mul Z.mod_small; lia.
Qed.

Lemma sizes_consistent_witness :
  parameters (scenario_layer (A:=R)) =
    Z.of_nat (length (gamma (scenario_layer (A:=R))) +
              length (beta (scenario_layer (A:=R))) +
              length (mean (scenario_layer (A:=R))) +
              length (var (scenario_layer (A:=R)))) ∧
  output_size (scenario_layer (A:=R)) = input_size (scenario_layer (A:=R)) ∧
  Z.of_nat (length (memory (scenario_input (A:=R)))) =
    (Z.of_nat (dim0 (scenario_input (A:=R))) *
     input_size (scenario_layer (A:=R)))%Z.
Proof.
  apply (sizes_consistent scenario_layer scenario_input); ready.
Defined.

(** * Further properties: the passes that read the cache *)


